(** * pywhy-graphs: the ADMG class of [pywhy_graphs/admg.py]

    A shallow embedding of [AncestralMixin] and [ADMG] together with the
    parts of networkx and of [graphs.MixedEdgeGraph] they call.

    - Python objects that are shared and mutated (networkx graphs) live in
      an explicit heap indexed by object identity; constructors allocate.
    - Python exceptions are an error monad over that heap.
    - A Python expression [self.f] that names a plain method evaluates to a
      bound method object; only [self.f()] runs the method.  Values are
      therefore tagged: a reference to a graph, or a bound method. *)

From stdpp Require Import gmap strings list fin_maps relations.

Local Open Scope Z_scope.

(** ** Python: exceptions, results, the heap monad *)

Module Py.

Inductive exn : Type :=
| RuntimeError            (* raised by ADMG.__init__ *)
| TypeError
| AttributeError
| NetworkXError           (* networkx: node not in the graph, bad input *)
| NetworkXNotImplemented  (* networkx: algorithm not defined for this graph type *)
| ReferenceError          (* a reference without an object; no Python state has one *)
| DuplicateEdgeTypeError  (* MixedEdgeGraph: edge type registered twice *)
| UnknownEdgeTypeError.   (* MixedEdgeGraph: edge type not registered *)

Inductive result (A : Type) : Type :=
| Ok (a : A)
| Raise (e : exn).
Arguments Ok {A} a.
Arguments Raise {A} e.

Definition bind {A B} (r : result A) (k : A -> result B) : result B :=
  match r with
  | Ok a => k a
  | Raise e => Raise e
  end.

Definition returns {A} (r : result A) : Prop := exists a, r = Ok a.

End Py.
Export Py.

#[global] Instance result_ret : MRet result := @Ok.
#[global] Instance result_bind : MBind result := fun A B k r => Py.bind r k.
#[global] Instance result_fmap : FMap result :=
  fun A B f r => Py.bind r (fun a => Ok (f a)).

#[global] Instance exn_eq_dec : EqDecision exn.
Proof. solve_decision. Defined.

(** ** networkx: [Graph], [DiGraph] and the algorithms ADMG calls *)

(** Nodes are hashable Python values; integers stand for them.  A location
    is the identity of an object on the heap. *)
Definition node := Z.
Definition loc := positive.

(** Adjacency: networkx keeps a dict of dicts [_adj[u][v] = edge data].  Edge
    and node attribute dictionaries play no part in [admg.py]; the inner dict
    is kept as its key set. *)
Abbreviation adjacency := (gmap node (gset node)).

Definition nbrs (a : adjacency) (u : node) : gset node := default ∅ (a !! u).

(** [if n not in self._adj: self._adj[n] = {}] *)
Definition add_node_adj (n : node) (a : adjacency) : adjacency :=
  match a !! n with
  | Some _ => a
  | None => <[n := ∅]> a
  end.

(** [self._adj[u][v] = datadict], for [u] already a key. *)
Definition link (u v : node) (a : adjacency) : adjacency :=
  <[u := nbrs a u ∪ {[v]}]> a.

Module Graph.
(** [networkx.Graph]: one symmetric adjacency. *)
Record t : Type := mk { _adj : adjacency }.

Definition empty : t := mk ∅.

Definition add_node (n : node) (G : t) : t := mk (add_node_adj n (_adj G)).

(** [Graph.add_edge]: adds both endpoints when new, then
    [_adj[u][v] = datadict; _adj[v][u] = datadict]. *)
Definition add_edge (u v : node) (G : t) : t :=
  mk (link v u (link u v (add_node_adj v (add_node_adj u (_adj G))))).

Definition add_nodes_from (ns : list node) (G : t) : t :=
  fold_left (fun G n => add_node n G) ns G.

Definition add_edges_from (es : list (node * node)) (G : t) : t :=
  fold_left (fun G e => add_edge e.1 e.2 G) es G.
End Graph.

Module DiGraph.
(** [networkx.DiGraph]: successors ([_succ], also [_adj]) and
    predecessors ([_pred]). *)
Record t : Type := mk { _succ : adjacency; _pred : adjacency }.

Definition empty : t := mk ∅ ∅.

Definition add_node (n : node) (G : t) : t :=
  mk (add_node_adj n (_succ G)) (add_node_adj n (_pred G)).

(** [DiGraph.add_edge]: adds both endpoints when new, then
    [_succ[u][v] = datadict; _pred[v][u] = datadict]. *)
Definition add_edge (u v : node) (G : t) : t :=
  mk (link u v (add_node_adj v (add_node_adj u (_succ G))))
     (link v u (add_node_adj v (add_node_adj u (_pred G)))).

Definition add_nodes_from (ns : list node) (G : t) : t :=
  fold_left (fun G n => add_node n G) ns G.

Definition add_edges_from (es : list (node * node)) (G : t) : t :=
  fold_left (fun G e => add_edge e.1 e.2 G) es G.
End DiGraph.

(** A graph object on the heap. *)
Inductive graph : Type :=
| Undirected (G : Graph.t)
| Directed (D : DiGraph.t).

Abbreviation heap := (gmap loc graph).

(** [G.adj]: the adjacency a graph object exposes ([_succ] for a DiGraph). *)
Definition adj (g : graph) : adjacency :=
  match g with
  | Undirected G => Graph._adj G
  | Directed D => DiGraph._succ D
  end.

(** [G.nodes] as a set. *)
Definition nodes (g : graph) : gset node := dom (adj g).

(** [G.edges], by membership: [(u, v) in G.edges] is [v in G._adj[u]]. *)
Definition adj_edge_list (a : adjacency) : list (node * node) :=
  '(u, s) ← map_to_list a; pair u <$> elements s.

Definition edges (g : graph) : gset (node * node) :=
  list_to_set (adj_edge_list (adj g)).

(** *** Building a graph from input data ([convert.to_networkx_graph]) *)

(** What [nx.Graph(data)] and [nx.DiGraph(data)] accept here: nothing, a
    list of edges, a dict of lists, or another graph object. *)
Inductive graph_data : Type :=
| DataNone
| DataEdges (es : list (node * node))
| DataDictOfLists (d : list (node * list node))
| DataGraph (l : loc).

Definition deref (h : heap) (l : loc) : result graph :=
  match h !! l with
  | Some g => Ok g
  | None => Raise ReferenceError
  end.

(** The nodes and the edges the constructor adds to the new, empty graph:
    - [None]: nothing;
    - a list of edges: [G.add_edges_from(data)];
    - a dict of lists ([from_dict_of_lists]): [G.add_nodes_from(d)], then
      every [(node, nbr)];
    - a graph ([from_dict_of_dicts(data.adj)]): [G.add_nodes_from(d)], then
      every [(u, v)] with [v] in [data.adj[u]]. *)
Definition to_networkx_graph (h : heap) (data : graph_data)
  : result (list node * list (node * node)) :=
  match data with
  | DataNone => Ok ([], [])
  | DataEdges es => Ok ([], es)
  | DataDictOfLists d => Ok (d.*1, '(u, vs) ← d; pair u <$> vs)
  | DataGraph l =>
      g ← deref h l;
      Ok ((map_to_list (adj g)).*1, adj_edge_list (adj g))
  end.

Definition build_Graph (ns : list node) (es : list (node * node)) : Graph.t :=
  Graph.add_edges_from es (Graph.add_nodes_from ns Graph.empty).

Definition build_DiGraph (ns : list node) (es : list (node * node)) : DiGraph.t :=
  DiGraph.add_edges_from es (DiGraph.add_nodes_from ns DiGraph.empty).

(** A constructor call allocates a new object. *)
Definition alloc (g : graph) (h : heap) : loc * heap :=
  let l := fresh (dom h) in (l, <[l := g]> h).

(** [nx.Graph(data)] *)
Definition nx_Graph (data : graph_data) (h : heap) : result (loc * heap) :=
  '(ns, es) ← to_networkx_graph h data;
  Ok (alloc (Undirected (build_Graph ns es)) h).

(** [nx.DiGraph(data)] *)
Definition nx_DiGraph (data : graph_data) (h : heap) : result (loc * heap) :=
  '(ns, es) ← to_networkx_graph h data;
  Ok (alloc (Directed (build_DiGraph ns es)) h).

(** *** Traversal *)

(** Breadth-first search by layers: [visited] is everything reached so far,
    [frontier] the last layer.  Each round adds at least one node or stops,
    so [size nodes] rounds are enough. *)
Fixpoint bfs (fuel : nat) (next : node -> gset node)
    (frontier visited : gset node) : gset node :=
  match fuel with
  | O => visited
  | S fuel' =>
      let new := ⋃ (next <$> elements frontier) ∖ visited in
      if decide (new = ∅) then visited
      else bfs fuel' next new (visited ∪ new)
  end.

Definition reach (next : node -> gset node) (ns : gset node) (source : node)
  : gset node :=
  bfs (size ns) next {[source]} {[source]}.

(** Predecessors used by a reversed traversal: [G._pred] for a DiGraph,
    the neighbours for a Graph. *)
Definition pred_adj (g : graph) : adjacency :=
  match g with
  | Undirected G => Graph._adj G
  | Directed D => DiGraph._pred D
  end.

(** *** Acyclicity ([is_directed_acyclic_graph], by [topological_generations]) *)

(** One pass of Kahn's algorithm.  [remaining] are the nodes still in
    [indegree_map]; a node's counter is zero when none of its predecessors
    remains.  The pass removes the zero-counter nodes (one generation), and
    the loop ends when a generation is empty. *)
Definition zero_indegree (D : DiGraph.t) (remaining : gset node) : gset node :=
  filter (fun v => nbrs (DiGraph._pred D) v ∩ remaining = ∅) remaining.

(** [true] when [indegree_map] ends empty; [false] is networkx's
    [NetworkXUnfeasible] ("Graph contains a cycle"). *)
Fixpoint topological_generations (fuel : nat) (D : DiGraph.t)
    (remaining : gset node) : bool :=
  if decide (remaining = ∅) then true
  else match fuel with
       | O => false
       | S fuel' =>
           let generation := zero_indegree D remaining in
           if decide (generation = ∅) then false
           else topological_generations fuel' D (remaining ∖ generation)
       end.

Definition has_cycle (D : DiGraph.t) : bool :=
  let ns := dom (DiGraph._succ D) in
  negb (topological_generations (size ns) D ns).

(** [G.is_directed() and not has_cycle(G)] *)
Definition is_directed_acyclic_graph_obj (g : graph) : bool :=
  match g with
  | Undirected _ => false
  | Directed D => negb (has_cycle D)
  end.

(** *** Connected components *)

(** One turn of the loop of [connected_components]:
    [if v not in seen: c = _plain_bfs(G, v); seen.update(c); yield c].
    The state is [seen] and the components yielded so far. *)
Definition visit (a : adjacency) (st : gset node * list (gset node)) (v : node)
  : gset node * list (gset node) :=
  let '(seen, out) := st in
  if decide (v ∈ seen) then (seen, out)
  else let c := reach (nbrs a) (dom a) v in (seen ∪ c, out ++ [c]).

(** [seen = set(); for v in G: ...] *)
Definition connected_components_obj (G : Graph.t) : list (gset node) :=
  let a := Graph._adj G in
  (fold_left (visit a) (elements (dom a)) (∅, [])).2.

(** ** MixedEdgeGraph *)

Module MixedEdgeGraph.

(** Modelled from the spec: the class [MixedEdgeGraph] of the package
    [graphs] is imported by [admg.py] and is not part of the sources.  Its
    state is the edge-type registry (name to sub-graph object) and the
    graph-level attribute mapping (spec section 3). *)
Record t : Type := mk {
  _edge_graphs : gmap string loc;
  graph : gmap string string
}.

(** Modelled from the spec: [MixedEdgeGraph.__init__], called with the
    keyword attributes, is missing;
    a mixed-edge graph is "created empty", with the given attributes. *)
Definition __init__ (attr : gmap string string) : t := mk ∅ attr.

(** Modelled from the spec: [add_edge_type] is missing.  "Register edge
    type (sub_graph, name): adds sub_graph under name to the registry.
    Fails with DuplicateEdgeTypeError if name already registered"; the
    registered object is the one passed in, and no other sub-graph is
    touched. *)
Definition add_edge_type (g : loc) (name : string) (self : t) : result t :=
  match _edge_graphs self !! name with
  | Some _ => Raise DuplicateEdgeTypeError
  | None => Ok (mk (<[name := g]> (_edge_graphs self)) (graph self))
  end.

(** Modelled from the spec: [get_graphs] is missing.  "Get sub-graph
    (name): the registered single-edge-type graph, or fails with
    UnknownEdgeTypeError". *)
Definition get_graphs (name : string) (self : t) : result loc :=
  match _edge_graphs self !! name with
  | Some g => Ok g
  | None => Raise UnknownEdgeTypeError
  end.

(** Modelled from the spec: [_get_internal_graph] is missing; it is the
    same "Get sub-graph (name)" operation, returning the live object. *)
Definition _get_internal_graph (name : string) (self : t) : result loc :=
  get_graphs name self.

(** Modelled from the spec: the unified node view is missing.  "The set of
    nodes that appear in at least one sub-graph (union semantics)". *)
Definition nodes (h : heap) (self : t) : gset node :=
  ⋃ ((fun l => from_option nodes ∅ (h !! l)) <$> (map_to_list (_edge_graphs self)).*2).

End MixedEdgeGraph.

(** ** Python values seen by [admg.py] *)

(** An ADMG instance: the inherited MixedEdgeGraph state and the three role
    names stored by [__init__]. *)
Record instance : Type := mk_instance {
  base : MixedEdgeGraph.t;
  _directed_name : string;
  _bidirected_name : string;
  _undirected_name : string
}.

(** What an expression of [admg.py] can evaluate to where a graph is
    expected: a reference to a graph object, or the bound method that
    [self.name] denotes when [name] is defined with [def]. *)
Inductive value : Type :=
| VGraph (l : loc)
| VMethod (name : string) (self : instance).

(** *** networkx entry points, applied to a value *)

(** [nx.is_directed_acyclic_graph(G)] *)
Definition is_directed_acyclic_graph (h : heap) (G : value) : result bool :=
  match G with
  | VGraph l => g ← deref h l; Ok (is_directed_acyclic_graph_obj g)
  | VMethod _ _ => Raise AttributeError   (* [G.is_directed] *)
  end.

(** [nx.ancestors(G, source)]: NetworkXError when [source] is not a node of
    [G]; otherwise the nodes met by a reversed breadth-first search from
    [source], [source] excluded.  Whatever the release, the first thing
    networkx does with [G] is to look up an attribute of it ([G.has_node],
    or [G.is_directed] inside [bfs_edges]); a bound method has neither. *)
Definition nx_ancestors (h : heap) (G : value) (source : node)
  : result (gset node) :=
  match G with
  | VGraph l =>
      g ← deref h l;
      if decide (source ∈ nodes g)
      then Ok (reach (nbrs (pred_adj g)) (nodes g) source ∖ {[source]})
      else Raise NetworkXError
  | VMethod _ _ => Raise AttributeError
  end.

(** [nx.descendants(G, source)]: the same, forward. *)
Definition nx_descendants (h : heap) (G : value) (source : node)
  : result (gset node) :=
  match G with
  | VGraph l =>
      g ← deref h l;
      if decide (source ∈ nodes g)
      then Ok (reach (nbrs (adj g)) (nodes g) source ∖ {[source]})
      else Raise NetworkXError
  | VMethod _ _ => Raise AttributeError
  end.

(** [G.successors(n)]: attribute lookup on [G], then
    [try: return iter(self._succ[n]) except KeyError: raise NetworkXError].
    Only a DiGraph has the attribute. *)
Definition successors (h : heap) (G : value) (n : node) : result (gset node) :=
  match G with
  | VGraph l =>
      g ← deref h l;
      match g with
      | Directed D =>
          match DiGraph._succ D !! n with
          | Some s => Ok s
          | None => Raise NetworkXError
          end
      | Undirected _ => Raise AttributeError
      end
  | VMethod _ _ => Raise AttributeError   (* a method has no [successors] *)
  end.

(** [G.predecessors(n)] *)
Definition predecessors (h : heap) (G : value) (n : node) : result (gset node) :=
  match G with
  | VGraph l =>
      g ← deref h l;
      match g with
      | Directed D =>
          match DiGraph._pred D !! n with
          | Some s => Ok s
          | None => Raise NetworkXError
          end
      | Undirected _ => Raise AttributeError
      end
  | VMethod _ _ => Raise AttributeError
  end.

(** [nx.connected_components(G)], decorated [not_implemented_for("directed")],
    which first asks [G.is_directed()]. *)
Definition connected_components (h : heap) (G : value)
  : result (list (gset node)) :=
  match G with
  | VGraph l =>
      g ← deref h l;
      match g with
      | Undirected G => Ok (connected_components_obj G)
      | Directed _ => Raise NetworkXNotImplemented
      end
  | VMethod _ _ => Raise AttributeError   (* [G.is_directed] *)
  end.

(** [G.edges] of the object behind a reference. *)
Definition edges_of (h : heap) (l : loc) : result (gset (node * node)) :=
  g ← deref h l; Ok (edges g).

(** ** [admg.py] *)

Local Open Scope string_scope.

(** [self.name], for a [name] that the class defines with [def]: the bound
    method, not its result. *)
Definition attr (self : instance) (name : string) : value := VMethod name self.

Module AncestralMixin.
(** Lines 7-56.  Each method passes [self.sub_directed_graph] on as it
    is. *)

Definition ancestors (h : heap) (self : instance) (source : node)
  : result (gset node) :=
  nx_ancestors h (attr self "sub_directed_graph") source.

Definition descendants (h : heap) (self : instance) (source : node)
  : result (gset node) :=
  nx_descendants h (attr self "sub_directed_graph") source.

Definition children (h : heap) (self : instance) (n : node)
  : result (gset node) :=
  successors h (attr self "sub_directed_graph") n.

Definition parents (h : heap) (self : instance) (n : node)
  : result (gset node) :=
  predecessors h (attr self "sub_directed_graph") n.
End AncestralMixin.

Module ADMG.

(** The accessor methods (lines 137-153). *)

Definition sub_directed_graph (self : instance) : result value :=
  VGraph <$> MixedEdgeGraph._get_internal_graph (_directed_name self) (base self).

Definition sub_bidirected_graph (self : instance) : result value :=
  VGraph <$> MixedEdgeGraph._get_internal_graph (_bidirected_name self) (base self).

Definition sub_undirected_graph (self : instance) : result value :=
  VGraph <$> MixedEdgeGraph._get_internal_graph (_undirected_name self) (base self).

Definition bidirected_edges (h : heap) (self : instance)
  : result (gset (node * node)) :=
  g ← MixedEdgeGraph.get_graphs (_bidirected_name self) (base self); edges_of h g.

Definition undirected_edges (h : heap) (self : instance)
  : result (gset (node * node)) :=
  g ← MixedEdgeGraph.get_graphs (_undirected_name self) (base self); edges_of h g.

Definition directed_edges (h : heap) (self : instance)
  : result (gset (node * node)) :=
  g ← MixedEdgeGraph.get_graphs (_directed_name self) (base self); edges_of h g.

(** [v()]: calling a value.  A bound method runs the function of that
    name on its [self]; a graph object is not callable. *)
Definition call (v : value) : result value :=
  match v with
  | VMethod name self =>
      if decide (name = "sub_directed_graph") then sub_directed_graph self
      else if decide (name = "sub_bidirected_graph") then sub_bidirected_graph self
      else if decide (name = "sub_undirected_graph") then sub_undirected_graph self
      else Raise AttributeError
  | VGraph _ => Raise TypeError
  end.

(** [ADMG.__init__] (lines 106-124).  The heap is threaded through the
    three constructor calls; an exception abandons the new objects. *)
Definition __init__
    (incoming_directed_edges incoming_bidirected_edges
       incoming_undirected_edges : graph_data)
    (directed_edge_name bidirected_edge_name undirected_edge_name : string)
    (attr_ : gmap string string) (h : heap) : result (instance * heap) :=
  let self := MixedEdgeGraph.__init__ attr_ in
  '(gd, h) ← nx_DiGraph incoming_directed_edges h;
  self ← MixedEdgeGraph.add_edge_type gd directed_edge_name self;
  '(gb, h) ← nx_Graph incoming_bidirected_edges h;
  self ← MixedEdgeGraph.add_edge_type gb bidirected_edge_name self;
  '(gu, h) ← nx_Graph incoming_undirected_edges h;
  self ← MixedEdgeGraph.add_edge_type gu undirected_edge_name self;
  let self :=
    mk_instance self directed_edge_name bidirected_edge_name
      undirected_edge_name in
  G ← call (attr self "sub_directed_graph");
  dag ← is_directed_acyclic_graph h G;
  if dag : bool then Ok (self, h) else Raise RuntimeError.

(** The call with the role names left at their defaults and no keyword
    attributes. *)
Definition new (d b u : graph_data) (h : heap) : result (instance * heap) :=
  __init__ d b u "directed" "bidirected" "undirected" ∅ h.

(** [c_components] (lines 126-134) *)
Definition c_components (h : heap) (self : instance)
  : result (list (gset node)) :=
  connected_components h (attr self "sub_bidirected_graph").
End ADMG.

(** ** Vocabulary of the properties *)

(** The edge relation of a DiGraph, read off its successor dictionary. *)
Definition edge (D : DiGraph.t) (u v : node) : Prop := v ∈ nbrs (DiGraph._succ D) u.

(** A directed cycle: some node reaches itself along one or more edges. *)
Definition contains_cycle (D : DiGraph.t) : Prop := exists n, tc (edge D) n n.

(** The invariant networkx keeps between [_succ] and [_pred]: they list the
    same edges, over the same nodes, and both ends of an edge are nodes. *)
Record well_formed (D : DiGraph.t) : Prop := {
  wf_pred : forall u v, u ∈ nbrs (DiGraph._pred D) v <-> v ∈ nbrs (DiGraph._succ D) u;
  wf_dom : dom (DiGraph._pred D) = dom (DiGraph._succ D);
  wf_closed : forall u v, edge D u v -> u ∈ dom (DiGraph._succ D) /\ v ∈ dom (DiGraph._succ D)
}.

(** The invariant networkx keeps on the adjacency of a Graph: it is
    symmetric, and both ends of an edge are nodes. *)
Record well_formed_undirected (G : Graph.t) : Prop := {
  wfu_sym : forall u v, v ∈ nbrs (Graph._adj G) u <-> u ∈ nbrs (Graph._adj G) v;
  wfu_closed : forall u v, v ∈ nbrs (Graph._adj G) u -> v ∈ dom (Graph._adj G)
}.

(** Two nodes are connected when a chain of edges joins them. *)
Definition connected (G : Graph.t) : relation node :=
  rtc (fun u v => v ∈ nbrs (Graph._adj G) u).

(** What holds of [seen] and of the components yielded so far, at every turn
    of the loop of [connected_components]. *)
Record components_inv (G : Graph.t) (seen : gset node) (out : list (gset node))
  : Prop := {
  inv_seen : forall x, x ∈ seen <-> exists c, c ∈ out /\ x ∈ c;
  inv_component :
    forall c, c ∈ out ->
      exists v, v ∈ dom (Graph._adj G) /\ forall x, x ∈ c <-> connected G v x;
  inv_disjoint : ForallOrdPairs (fun c c' : gset node => c ## c') out
}.

(** [u] is a predecessor of [v], read off [_pred] as Kahn's algorithm does. *)
Definition is_pred (D : DiGraph.t) (u v : node) : Prop := u ∈ nbrs (DiGraph._pred D) v.

(** An input that refers to a graph object refers to a live one. *)
Definition data_ok (h : heap) (d : graph_data) : Prop :=
  match d with
  | DataGraph l => is_Some (h !! l)
  | _ => True
  end.

(** The directed-role sub-graph that [nx.DiGraph(data)] builds. *)
Definition directed_of (h : heap) (d : graph_data) : result DiGraph.t :=
  '(ns, es) ← to_networkx_graph h d; Ok (build_DiGraph ns es).

(** * Properties *)

(** ** Adjacency dictionaries *)

Section adjacency.
Implicit Types (a : adjacency) (u v w x y n : node).

Lemma nbrs_add_node_adj n a w : nbrs (add_node_adj n a) w = nbrs a w.
Proof.
  unfold add_node_adj, nbrs. destruct (a !! n) eqn:E; [done|].
  destruct (decide (n = w)) as [->|Hne].
  - by rewrite lookup_insert_eq, E.
  - by rewrite lookup_insert_ne.
Qed.

Lemma dom_add_node_adj n a : dom (add_node_adj n a) = {[n]} ∪ dom a.
Proof.
  unfold add_node_adj. destruct (a !! n) eqn:E.
  - apply elem_of_dom_2 in E. set_solver.
  - by rewrite dom_insert_L.
Qed.

Lemma elem_of_nbrs_link u v a w x :
  x ∈ nbrs (link u v a) w ↔ x ∈ nbrs a w ∨ (w = u ∧ x = v).
Proof.
  unfold link. destruct (decide (u = w)) as [->|Hne].
  - unfold nbrs at 1. rewrite lookup_insert_eq. simpl. set_solver.
  - unfold nbrs at 1. rewrite lookup_insert_ne by done.
    fold (nbrs a w). naive_solver.
Qed.

Lemma dom_link u v a : dom (link u v a) = {[u]} ∪ dom a.
Proof. unfold link. by rewrite dom_insert_L. Qed.

Lemma elem_of_adj_edge_list a u v :
  (u, v) ∈ adj_edge_list a ↔ v ∈ nbrs a u.
Proof.
  unfold adj_edge_list. rewrite list_elem_of_bind. split.
  - intros [[u' s] [Hin Hs]]. apply list_elem_of_fmap in Hin as [v' [Heq Hv']].
    simplify_eq. apply elem_of_map_to_list in Hs. apply elem_of_elements in Hv'.
    unfold nbrs. by rewrite Hs.
  - intros Hv. unfold nbrs in Hv. destruct (a !! u) as [s|] eqn:E; [|set_solver].
    exists (u, s). split.
    + apply list_elem_of_fmap. exists v. split; [done|]. by apply elem_of_elements.
    + by apply elem_of_map_to_list.
Qed.

Lemma elem_of_adj_keys a u : u ∈ (map_to_list a).*1 ↔ u ∈ dom a.
Proof.
  rewrite elem_of_dom. split.
  - intros [[u' s] [-> Hs]]%list_elem_of_fmap. apply elem_of_map_to_list in Hs. eauto.
  - intros [s Hs]. apply list_elem_of_fmap. exists (u, s). split; [done|].
    by apply elem_of_map_to_list.
Qed.
End adjacency.

Lemma elem_of_edges g u v : (u, v) ∈ edges g ↔ v ∈ nbrs (adj g) u.
Proof. unfold edges. rewrite elem_of_list_to_set. apply elem_of_adj_edge_list. Qed.

(** ** What the graph constructors build *)

Section construction.
Implicit Types (u v w x y n : node) (ns : list node) (es : list (node * node)).

Lemma Graph_nbrs_add_nodes_from ns G w :
  nbrs (Graph._adj (Graph.add_nodes_from ns G)) w = nbrs (Graph._adj G) w.
Proof.
  revert G. induction ns as [|n ns IH]; intros G; [done|].
  simpl. rewrite IH. apply nbrs_add_node_adj.
Qed.

Lemma Graph_dom_add_nodes_from ns G :
  dom (Graph._adj (Graph.add_nodes_from ns G)) = list_to_set ns ∪ dom (Graph._adj G).
Proof.
  revert G. induction ns as [|n ns IH]; intros G; simpl; [set_solver|].
  rewrite IH. simpl. rewrite dom_add_node_adj. set_solver.
Qed.

Lemma Graph_elem_of_add_edge u v G w x :
  x ∈ nbrs (Graph._adj (Graph.add_edge u v G)) w ↔
  x ∈ nbrs (Graph._adj G) w ∨ (w = u ∧ x = v) ∨ (w = v ∧ x = u).
Proof.
  simpl. rewrite !elem_of_nbrs_link, !nbrs_add_node_adj. naive_solver.
Qed.

Lemma Graph_dom_add_edge u v G :
  dom (Graph._adj (Graph.add_edge u v G)) = {[u; v]} ∪ dom (Graph._adj G).
Proof. simpl. rewrite !dom_link, !dom_add_node_adj. set_solver. Qed.

Lemma Graph_elem_of_add_edges_from es G w x :
  x ∈ nbrs (Graph._adj (Graph.add_edges_from es G)) w ↔
  x ∈ nbrs (Graph._adj G) w ∨ (w, x) ∈ es ∨ (x, w) ∈ es.
Proof.
  revert G. induction es as [|[u v] es IH]; intros G; simpl.
  - set_solver.
  - rewrite IH, Graph_elem_of_add_edge, !elem_of_cons. naive_solver.
Qed.

Lemma Graph_dom_add_edges_from es G :
  dom (Graph._adj (Graph.add_edges_from es G)) =
  list_to_set es.*1 ∪ list_to_set es.*2 ∪ dom (Graph._adj G).
Proof.
  revert G. induction es as [|[u v] es IH]; intros G; simpl; [set_solver|].
  rewrite IH, Graph_dom_add_edge. set_solver.
Qed.

(** In a graph built by [nx.Graph], [v] is a neighbour of [u] exactly when
    the input has the edge in one of its two orientations. *)
Lemma elem_of_build_Graph ns es u v :
  v ∈ nbrs (Graph._adj (build_Graph ns es)) u ↔ (u, v) ∈ es ∨ (v, u) ∈ es.
Proof.
  unfold build_Graph.
  rewrite Graph_elem_of_add_edges_from, Graph_nbrs_add_nodes_from.
  unfold nbrs at 1. simpl. rewrite lookup_empty. set_solver.
Qed.

Lemma build_Graph_symmetric ns es u v :
  v ∈ nbrs (Graph._adj (build_Graph ns es)) u ↔
  u ∈ nbrs (Graph._adj (build_Graph ns es)) v.
Proof. rewrite !elem_of_build_Graph. tauto. Qed.

Lemma dom_build_Graph ns es :
  dom (Graph._adj (build_Graph ns es)) =
  list_to_set es.*1 ∪ list_to_set es.*2 ∪ list_to_set ns.
Proof.
  unfold build_Graph. rewrite Graph_dom_add_edges_from, Graph_dom_add_nodes_from.
  simpl. set_solver.
Qed.
End construction.

Section digraph_construction.
Implicit Types (u v w x y n : node) (ns : list node) (es : list (node * node)).

Lemma DiGraph_nbrs_add_nodes_from ns G w :
  nbrs (DiGraph._succ (DiGraph.add_nodes_from ns G)) w = nbrs (DiGraph._succ G) w ∧
  nbrs (DiGraph._pred (DiGraph.add_nodes_from ns G)) w = nbrs (DiGraph._pred G) w.
Proof.
  revert G. induction ns as [|n ns IH]; intros G; [done|].
  simpl. destruct (IH (DiGraph.add_node n G)) as [-> ->].
  simpl. by rewrite !nbrs_add_node_adj.
Qed.

Lemma DiGraph_dom_add_nodes_from ns G :
  dom (DiGraph._succ (DiGraph.add_nodes_from ns G)) = list_to_set ns ∪ dom (DiGraph._succ G) ∧
  dom (DiGraph._pred (DiGraph.add_nodes_from ns G)) = list_to_set ns ∪ dom (DiGraph._pred G).
Proof.
  revert G. induction ns as [|n ns IH]; intros G; simpl; [set_solver|].
  destruct (IH (DiGraph.add_node n G)) as [-> ->].
  simpl. rewrite !dom_add_node_adj. set_solver.
Qed.

Lemma DiGraph_succ_add_edge u v G w x :
  x ∈ nbrs (DiGraph._succ (DiGraph.add_edge u v G)) w ↔
  x ∈ nbrs (DiGraph._succ G) w ∨ (w = u ∧ x = v).
Proof. simpl. by rewrite elem_of_nbrs_link, !nbrs_add_node_adj. Qed.

Lemma DiGraph_pred_add_edge u v G w x :
  x ∈ nbrs (DiGraph._pred (DiGraph.add_edge u v G)) w ↔
  x ∈ nbrs (DiGraph._pred G) w ∨ (w = v ∧ x = u).
Proof. simpl. by rewrite elem_of_nbrs_link, !nbrs_add_node_adj. Qed.

Lemma DiGraph_dom_add_edge u v G :
  dom (DiGraph._succ (DiGraph.add_edge u v G)) = {[u; v]} ∪ dom (DiGraph._succ G) ∧
  dom (DiGraph._pred (DiGraph.add_edge u v G)) = {[u; v]} ∪ dom (DiGraph._pred G).
Proof. simpl. rewrite !dom_link, !dom_add_node_adj. set_solver. Qed.

Lemma DiGraph_succ_add_edges_from es G w x :
  x ∈ nbrs (DiGraph._succ (DiGraph.add_edges_from es G)) w ↔
  x ∈ nbrs (DiGraph._succ G) w ∨ (w, x) ∈ es.
Proof.
  revert G. induction es as [|[u v] es IH]; intros G; simpl.
  - set_solver.
  - rewrite IH, DiGraph_succ_add_edge, !elem_of_cons. naive_solver.
Qed.

Lemma DiGraph_pred_add_edges_from es G w x :
  x ∈ nbrs (DiGraph._pred (DiGraph.add_edges_from es G)) w ↔
  x ∈ nbrs (DiGraph._pred G) w ∨ (x, w) ∈ es.
Proof.
  revert G. induction es as [|[u v] es IH]; intros G; simpl.
  - set_solver.
  - rewrite IH, DiGraph_pred_add_edge, !elem_of_cons. naive_solver.
Qed.

Lemma DiGraph_dom_add_edges_from es G :
  dom (DiGraph._succ (DiGraph.add_edges_from es G)) =
    list_to_set es.*1 ∪ list_to_set es.*2 ∪ dom (DiGraph._succ G) ∧
  dom (DiGraph._pred (DiGraph.add_edges_from es G)) =
    list_to_set es.*1 ∪ list_to_set es.*2 ∪ dom (DiGraph._pred G).
Proof.
  revert G. induction es as [|[u v] es IH]; intros G; simpl; [set_solver|].
  destruct (IH (DiGraph.add_edge u v G)) as [-> ->].
  destruct (DiGraph_dom_add_edge u v G) as [-> ->]. set_solver.
Qed.

(** In a graph built by [nx.DiGraph], the successors of [u] are the heads
    of the input edges that leave [u], and the predecessors of [v] the
    tails of those that enter [v]. *)
Lemma elem_of_build_DiGraph_succ ns es u v :
  v ∈ nbrs (DiGraph._succ (build_DiGraph ns es)) u ↔ (u, v) ∈ es.
Proof.
  unfold build_DiGraph. rewrite DiGraph_succ_add_edges_from.
  destruct (DiGraph_nbrs_add_nodes_from ns DiGraph.empty u) as [-> _].
  unfold nbrs at 1. simpl. rewrite lookup_empty. set_solver.
Qed.

Lemma elem_of_build_DiGraph_pred ns es u v :
  u ∈ nbrs (DiGraph._pred (build_DiGraph ns es)) v ↔ (u, v) ∈ es.
Proof.
  unfold build_DiGraph. rewrite DiGraph_pred_add_edges_from.
  destruct (DiGraph_nbrs_add_nodes_from ns DiGraph.empty v) as [_ ->].
  unfold nbrs at 1. simpl. rewrite lookup_empty. set_solver.
Qed.

Lemma dom_build_DiGraph ns es :
  dom (DiGraph._succ (build_DiGraph ns es)) =
    list_to_set es.*1 ∪ list_to_set es.*2 ∪ list_to_set ns ∧
  dom (DiGraph._pred (build_DiGraph ns es)) =
    list_to_set es.*1 ∪ list_to_set es.*2 ∪ list_to_set ns.
Proof.
  unfold build_DiGraph.
  destruct (DiGraph_dom_add_edges_from es (DiGraph.add_nodes_from ns DiGraph.empty))
    as [-> ->].
  destruct (DiGraph_dom_add_nodes_from ns DiGraph.empty) as [-> ->].
  simpl. set_solver.
Qed.
End digraph_construction.

Lemma elem_of_endpoints (es : list (node * node)) (u v : node) :
  (u, v) ∈ es ->
  u ∈ (list_to_set es.*1 : gset node) /\ v ∈ (list_to_set es.*2 : gset node).
Proof.
  intros Hin. rewrite !elem_of_list_to_set, !list_elem_of_fmap.
  split; exists (u, v); done.
Qed.

Lemma build_DiGraph_well_formed ns es : well_formed (build_DiGraph ns es).
Proof.
  split.
  - intros u v. by rewrite elem_of_build_DiGraph_pred, elem_of_build_DiGraph_succ.
  - by destruct (dom_build_DiGraph ns es) as [-> ->].
  - intros u v Huv. apply elem_of_build_DiGraph_succ in Huv.
    destruct (dom_build_DiGraph ns es) as [-> _].
    apply elem_of_endpoints in Huv. set_solver.
Qed.

Lemma build_Graph_well_formed ns es : well_formed_undirected (build_Graph ns es).
Proof.
  split.
  - intros u v. apply build_Graph_symmetric.
  - intros u v Huv. apply elem_of_build_Graph in Huv. rewrite dom_build_Graph.
    destruct Huv as [Huv|Huv]; apply elem_of_endpoints in Huv; set_solver.
Qed.

Section relations.
Context {A : Type}.
Implicit Types (R : relation A).

Lemma tc_mono R1 R2 x y :
  (forall a b, R1 a b -> R2 a b) -> tc R1 x y -> tc R2 x y.
Proof.
  intros Hsub Htc. induction Htc as [a b Hab|a b c Hab _ IH].
  - apply tc_once. auto.
  - eapply tc_l; eauto.
Qed.

(** A node that is accessible for [R] lies on no [R]-cycle. *)
Lemma Acc_no_loop R x : Acc R x -> ~ tc R x x.
Proof.
  intros Hacc. cut (forall y, rtc R x y -> ~ tc R y x).
  { intros Hcut Hloop. by apply (Hcut x). }
  induction Hacc as [x _ IH]. intros y Hxy Hyx.
  apply tc_nsteps in Hyx as [k [Hk Hsteps]].
  destruct k as [|k]; [lia|]. apply nsteps_inv_r in Hsteps as [z [Hyz Hzx]].
  apply (IH z Hzx z); [done|].
  eapply tc_rtc_r; [by apply tc_once|].
  etrans; [exact Hxy|]. eapply rtc_nsteps_2. exact Hyz.
Qed.
End relations.

(** Pigeonhole: in a non-empty finite set where every member has a
    predecessor in the set, some node lies on a cycle. *)
Lemma closed_set_has_cycle (X : gset node) :
  forall (R : relation node), (forall u v, Decision (R u v)) ->
    X ≠ ∅ -> (forall v, v ∈ X -> exists u, u ∈ X /\ R u v) ->
    exists x, tc R x x.
Proof.
  induction X as [|x X Hx IH] using set_ind_L; intros R Hdec Hne Hclosed; [done|].
  destruct (decide (R x x)) as [Hxx|Hxx]; [exists x; by apply tc_once|].
  destruct (decide (X = ∅)) as [->|HX].
  { destruct (Hclosed x) as [u [Hu HR]]; [set_solver|].
    assert (u = x) as -> by set_solver. done. }
  set (R' := fun u w => R u w \/ (R u x /\ R x w)).
  destruct (IH R') as [z Hz]; [solve_decision| done | |].
  - intros w Hw. destruct (Hclosed w) as [u [Hu HR]]; [set_solver|].
    destruct (decide (u = x)) as [->|Hux].
    + destruct (Hclosed x) as [u' [Hu' HR']]; [set_solver|].
      assert (u' ≠ x) by (intros Heq; apply Hxx; by rewrite Heq in HR').
      exists u'. split; [set_solver|]. right. done.
    + exists u. split; [set_solver|]. by left.
  - exists z. revert Hz. generalize z at 1 3 as a. generalize z as b.
    intros b a Hab. induction Hab as [a b Hab|a b c Hab _ IHtc].
    + destruct Hab as [?|[? ?]]; [by apply tc_once|].
      eapply tc_l; [eassumption|by apply tc_once].
    + eapply tc_trans; [|exact IHtc].
      destruct Hab as [?|[? ?]]; [by apply tc_once|].
      eapply tc_l; [eassumption|by apply tc_once].
Qed.

(** ** Directed cycles and Kahn's algorithm *)

Section kahn.
Variable D : DiGraph.t.

Lemma elem_of_zero_indegree rem v :
  v ∈ zero_indegree D rem ↔ nbrs (DiGraph._pred D) v ∩ rem = ∅ ∧ v ∈ rem.
Proof. unfold zero_indegree. by rewrite elem_of_filter. Qed.

Lemma topological_generations_true fuel rem :
  topological_generations fuel D rem = true ->
  (forall v, v ∉ rem -> Acc (is_pred D) v) -> forall v, Acc (is_pred D) v.
Proof.
  revert rem. induction fuel as [|fuel IH]; intros rem Hrun Hout; simpl in Hrun.
  - destruct (decide (rem = ∅)) as [->|]; [|done]. intros v. apply Hout. set_solver.
  - destruct (decide (rem = ∅)) as [->|]. { intros v. apply Hout. set_solver. }
    destruct (decide (zero_indegree D rem = ∅)); [done|].
    apply (IH _ Hrun). intros v Hv.
    destruct (decide (v ∈ rem)) as [Hin|]; [|by apply Hout].
    assert (v ∈ zero_indegree D rem) as Hzero.
    { destruct (decide (v ∈ zero_indegree D rem)); [done|].
      exfalso. apply Hv. by apply elem_of_difference. }
    apply elem_of_zero_indegree in Hzero as [Hzero _].
    constructor. intros u Hu. apply Hout. unfold is_pred in Hu. set_solver.
Qed.

Lemma topological_generations_false fuel (rem : gset node) :
  (size rem <= fuel)%nat ->
  topological_generations fuel D rem = false ->
  exists X : gset node, X ≠ ∅ /\ forall v, v ∈ X -> exists u, u ∈ X /\ is_pred D u v.
Proof.
  revert rem. induction fuel as [|fuel IH]; intros rem Hsize Hrun; simpl in Hrun.
  - destruct (decide (rem = ∅)) as [|Hne]; [done|].
    destruct Hne. apply leibniz_equiv, size_empty_inv. lia.
  - destruct (decide (rem = ∅)) as [|Hne]; [done|].
    destruct (decide (zero_indegree D rem = ∅)) as [Hstuck|Hgen].
    + exists rem. split; [done|]. intros v Hv.
      destruct (decide (nbrs (DiGraph._pred D) v ∩ rem = ∅)) as [Hz|Hz].
      * assert (v ∈ zero_indegree D rem) by by apply elem_of_zero_indegree.
        set_solver.
      * apply set_choose_L in Hz as [u Hu]. exists u. unfold is_pred. set_solver.
    + apply (IH (rem ∖ zero_indegree D rem)); [|done].
      assert (rem ∖ zero_indegree D rem ⊂ rem) as Hlt%subset_size; [|lia].
      apply set_choose_L in Hgen as [z Hz].
      pose proof Hz as Hzrem. apply elem_of_zero_indegree in Hzrem as [_ Hzrem].
      set_solver.
Qed.

Hypothesis Hwf : well_formed D.

Lemma is_pred_edge u v : is_pred D u v <-> edge D u v.
Proof. apply (wf_pred D Hwf). Qed.

(** Kahn's algorithm answers "cycle" exactly on the graphs that have one. *)
Lemma has_cycle_spec : has_cycle D = true <-> contains_cycle D.
Proof.
  unfold has_cycle. rewrite negb_true_iff. split.
  - intros Hrun. apply topological_generations_false in Hrun as [X [HX Hclosed]]; [|done].
    destruct (closed_set_has_cycle X (is_pred D)) as [x Hx]; [|done|done|].
    { intros u v. unfold is_pred. apply _. }
    exists x. eapply tc_mono; [|exact Hx]. intros a b. apply is_pred_edge.
  - intros [n Hn]. destruct (topological_generations _ _ _) eqn:Hrun; [|done].
    exfalso. apply (Acc_no_loop (is_pred D) n).
    + apply (topological_generations_true _ _ Hrun). intros v Hv. constructor.
      intros u Hu. exfalso. apply Hv. unfold is_pred, nbrs in Hu.
      destruct (DiGraph._pred D !! v) eqn:E; [|set_solver].
      rewrite <- (wf_dom D Hwf). by apply elem_of_dom_2 in E.
    + eapply tc_mono; [|exact Hn]. intros a b. apply is_pred_edge.
Qed.

Lemma has_cycle_false : has_cycle D = false <-> ~ contains_cycle D.
Proof. rewrite <- has_cycle_spec. by destruct (has_cycle D). Qed.
End kahn.

(** ** Breadth-first search *)

Section bfs.
Variable next : node -> gset node.
Variable ns : gset node.

(** One step along [next]. *)
Let step (u v : node) : Prop := v ∈ next u.

Lemma elem_of_next_layer (F : gset node) (x : node) :
  x ∈ ⋃ (next <$> elements F) <-> exists u, u ∈ F /\ x ∈ next u.
Proof.
  rewrite elem_of_union_list. split.
  - intros [X [HX Hx]]. apply list_elem_of_fmap in HX as [u [-> Hu]].
    apply elem_of_elements in Hu. eauto.
  - intros [u [Hu Hx]]. exists (next u). split; [|done].
    apply list_elem_of_fmap. exists u. split; [done|]. by apply elem_of_elements.
Qed.

(** Everything the search returns is reachable. *)
Lemma bfs_sound fuel (F V : gset node) (s : node) :
  F ⊆ V -> (forall x, x ∈ V -> rtc step s x) ->
  forall x, x ∈ bfs fuel next F V -> rtc step s x.
Proof.
  revert F V. induction fuel as [|fuel IH]; intros F V HFV HV x; simpl; [by apply HV|].
  destruct (decide (⋃ (next <$> elements F) ∖ V = ∅)); [by apply HV|].
  apply IH; [set_solver|]. intros y [Hy|Hy]%elem_of_union; [by apply HV|].
  apply elem_of_difference in Hy as [Hy _].
  apply elem_of_next_layer in Hy as [u [Hu Hy]].
  apply rtc_r with u; [apply HV; set_solver|done].
Qed.

Hypothesis Hclosed : forall u, next u ⊆ ns.

(** With enough fuel, everything reachable is returned: the nodes of [V]
    outside the frontier have all their successors in [V], and each round
    either stops or grows [V], which stays inside [ns]. *)
Lemma bfs_complete fuel (F V : gset node) (s : node) :
  s ∈ V -> F ⊆ V -> V ⊆ ns ->
  (forall u, u ∈ V -> u ∉ F -> next u ⊆ V) ->
  (size ns < fuel + size V)%nat ->
  forall x, rtc step s x -> x ∈ bfs fuel next F V.
Proof.
  revert F V. induction fuel as [|fuel IH]; intros F V Hs HFV HVns Hdone Hsize x Hx.
  { apply subseteq_size in HVns. simpl in Hsize. lia. }
  simpl. destruct (decide (⋃ (next <$> elements F) ∖ V = ∅)) as [Hstop|Hgrow].
  - assert (forall u, u ∈ V -> next u ⊆ V) as Hall.
    { intros u Hu. destruct (decide (u ∈ F)) as [HuF|HuF]; [|by apply Hdone].
      intros y Hy. destruct (decide (y ∈ V)) as [|HyV]; [done|].
      assert (y ∈ ⋃ (next <$> elements F) ∖ V) as Hin.
      { apply elem_of_difference. split; [|done]. apply elem_of_next_layer. eauto. }
      rewrite Hstop in Hin. set_solver. }
    clear -Hs Hx Hall. revert Hs.
    induction Hx as [|a b c Hab _ IHrtc]; intros Hs; [done|].
    apply IHrtc. pose proof (Hall a Hs) as Ha. unfold step in Hab. set_solver.
  - apply IH; try done.
    + set_solver.
    + set_solver.
    + intros y [Hy|Hy]%elem_of_union; [by apply HVns|].
      apply elem_of_difference in Hy as [Hy _].
      apply elem_of_next_layer in Hy as [u [_ Hy]]. by apply (Hclosed u).
    + intros u Hu HuN y Hy.
      assert (u ∈ V) as HuV by set_solver.
      destruct (decide (y ∈ V)) as [|HyV]; [set_solver|].
      destruct (decide (u ∈ F)) as [HuF|HuF].
      * apply elem_of_union_r. apply elem_of_difference. split; [|done].
        apply elem_of_next_layer. eauto.
      * exfalso. apply HyV. by apply (Hdone u).
    + rewrite size_union by set_solver.
      assert (size (⋃ (next <$> elements F) ∖ V) ≠ 0)%nat.
      { intros H0. apply size_empty_inv in H0. apply Hgrow. by apply leibniz_equiv. }
      lia.
Qed.

(** [reach] computes the nodes reachable from [source]. *)
Lemma elem_of_reach (source x : node) :
  source ∈ ns -> x ∈ reach next ns source <-> rtc step source x.
Proof.
  intros Hs. unfold reach. split.
  - apply bfs_sound; [done|]. intros y ->%elem_of_singleton. done.
  - apply bfs_complete; try set_solver. rewrite size_singleton. lia.
Qed.
End bfs.

(** ** What networkx computes on a graph object *)

Lemma rtc_flip {A} (R : relation A) x y : rtc (flip R) x y <-> rtc R y x.
Proof.
  split.
  - induction 1 as [|a b c Hab _ IH]; [done|]. by apply rtc_r with b.
  - induction 1 as [|a b c Hab _ IH]; [done|]. by apply rtc_r with b.
Qed.

Section digraph_queries.
Variables (h : heap) (l : loc) (D : DiGraph.t).
Hypothesis Hl : h !! l = Some (Directed D).
Hypothesis Hwf : well_formed D.

Lemma pred_closed u : nbrs (DiGraph._pred D) u ⊆ dom (DiGraph._succ D).
Proof.
  intros v Hv. apply (wf_pred D Hwf) in Hv. by apply (wf_closed D Hwf) in Hv as [? _].
Qed.

Lemma succ_closed u : nbrs (DiGraph._succ D) u ⊆ dom (DiGraph._succ D).
Proof. intros v Hv. by apply (wf_closed D Hwf) in Hv as [_ ?]. Qed.

(** [nx.ancestors(G, source)] is the set of nodes other than [source] from
    which a directed path reaches [source]. *)
Lemma nx_ancestors_present source :
  source ∈ dom (DiGraph._succ D) ->
  exists S, nx_ancestors h (VGraph l) source = Ok S /\
            forall a, a ∈ S <-> a ≠ source /\ tc (edge D) a source.
Proof.
  intros Hs. unfold nx_ancestors, deref. rewrite Hl. cbn [mbind result_bind Py.bind].
  unfold nodes. simpl. rewrite decide_True by done. eexists. split; [done|].
  intros a. rewrite elem_of_difference, elem_of_singleton.
  rewrite (elem_of_reach _ _ pred_closed) by done.
  assert (rtc (fun u v => v ∈ nbrs (DiGraph._pred D) u) source a <-> rtc (edge D) a source)
    as ->.
  { rewrite <- rtc_flip. split; apply rtc_subrel; intros x y; apply (wf_pred D Hwf). }
  rewrite rtc_tc. naive_solver.
Qed.

(** [nx.descendants(G, source)] is the set of nodes other than [source]
    that a directed path from [source] reaches. *)
Lemma nx_descendants_present source :
  source ∈ dom (DiGraph._succ D) ->
  exists S, nx_descendants h (VGraph l) source = Ok S /\
            forall d, d ∈ S <-> d ≠ source /\ tc (edge D) source d.
Proof.
  intros Hs. unfold nx_descendants, deref. rewrite Hl. cbn [mbind result_bind Py.bind].
  unfold nodes. simpl. rewrite decide_True by done. eexists. split; [done|].
  intros d. rewrite elem_of_difference, elem_of_singleton.
  rewrite (elem_of_reach _ _ succ_closed) by done.
  fold (edge D). rewrite rtc_tc. naive_solver.
Qed.

Lemma nx_ancestors_absent source :
  source ∉ dom (DiGraph._succ D) ->
  nx_ancestors h (VGraph l) source = Raise NetworkXError /\
  nx_descendants h (VGraph l) source = Raise NetworkXError.
Proof.
  intros Hs. unfold nx_ancestors, nx_descendants, deref. rewrite Hl.
  cbn [mbind result_bind Py.bind]. unfold nodes. simpl. by rewrite !decide_False by done.
Qed.


(** [successors] and [predecessors] list the directed edges, from either
    end; a node outside the graph raises NetworkXError. *)
Lemma successors_predecessors_edges u v :
  (u, v) ∈ edges (Directed D) <->
  (exists S, successors h (VGraph l) u = Ok S /\ v ∈ S) /\
  (exists P, predecessors h (VGraph l) v = Ok P /\ u ∈ P).
Proof.
  rewrite elem_of_edges. simpl. unfold successors, predecessors, deref. rewrite Hl.
  cbn [mbind result_bind Py.bind]. split.
  - intros Huv. pose proof Huv as Hvu. apply (wf_pred D Hwf) in Hvu.
    unfold nbrs in Huv, Hvu.
    destruct (DiGraph._succ D !! u) as [S|]; [|set_solver].
    destruct (DiGraph._pred D !! v) as [P|]; [|set_solver].
    simpl in Huv, Hvu. split; eexists; split; done.
  - intros [[S [HS Hv]] _]. unfold nbrs.
    destruct (DiGraph._succ D !! u) as [S'|]; [|done]. by injection HS as ->.
Qed.

Lemma successors_absent n :
  n ∉ dom (DiGraph._succ D) ->
  successors h (VGraph l) n = Raise NetworkXError /\
  predecessors h (VGraph l) n = Raise NetworkXError.
Proof.
  intros Hn. pose proof Hn as Hn'. rewrite <- (wf_dom D Hwf) in Hn'.
  apply not_elem_of_dom in Hn, Hn'.
  unfold successors, predecessors, deref. rewrite Hl.
  cbn [mbind result_bind Py.bind]. by rewrite Hn, Hn'.
Qed.
End digraph_queries.

Section components.
Variable G : Graph.t.
Hypothesis Hwf : well_formed_undirected G.

Let a := Graph._adj G.

Lemma adj_closed u : nbrs a u ⊆ dom a.
Proof. intros v Hv. by apply (wfu_closed G Hwf) in Hv. Qed.

Lemma connected_sym u v : connected G u v -> connected G v u.
Proof.
  intros Huv. apply rtc_flip. eapply rtc_subrel; [|exact Huv].
  intros x y Hxy. by apply (wfu_sym G Hwf).
Qed.

Lemma connected_in_graph u v : u ∈ dom a -> connected G u v -> v ∈ dom a.
Proof.
  intros Hu Huv. induction Huv as [|x y z Hxy _ IH]; [done|].
  apply IH. by apply (adj_closed x).
Qed.

(** The set found from [v] is the connected component of [v]. *)
Lemma elem_of_component v x :
  v ∈ dom a -> x ∈ reach (nbrs a) (dom a) v <-> connected G v x.
Proof. intros Hv. by rewrite (elem_of_reach _ _ adj_closed). Qed.

Lemma ForallOrdPairs_snoc {A} (R : A -> A -> Prop) (l : list A) (x : A) :
  ForallOrdPairs R l -> (forall y, y ∈ l -> R y x) -> ForallOrdPairs R (l ++ [x])%list.
Proof.
  induction 1 as [|y l Hy Hl IH]; intros Hx; simpl.
  - constructor; constructor.
  - constructor.
    + apply Forall_app. split; [done|]. constructor; [|constructor].
      apply Hx. left.
    + apply IH. intros z Hz. apply Hx. by right.
Qed.

Lemma visit_inv seen out v :
  v ∈ dom a -> components_inv G seen out ->
  components_inv G (visit a (seen, out) v).1 (visit a (seen, out) v).2 /\
  seen ⊆ (visit a (seen, out) v).1 /\ v ∈ (visit a (seen, out) v).1.
Proof.
  intros Hv [Hseen Hcomp Hdisj]. unfold visit.
  destruct (decide (v ∈ seen)) as [Hin|Hnew]; simpl; [split; [by constructor|done]|].
  split; [split|].
  - intros x. rewrite elem_of_union, Hseen. setoid_rewrite elem_of_app.
    setoid_rewrite list_elem_of_singleton. naive_solver.
  - intros c [Hc|Hc%list_elem_of_singleton]%elem_of_app; [by apply Hcomp|].
    subst c. exists v. split; [done|]. intros x. by apply elem_of_component.
  - apply ForallOrdPairs_snoc; [done|]. intros c Hc.
    destruct (Hcomp c Hc) as (w & Hw & Hcw).
    apply elem_of_disjoint. intros x Hxc Hxv.
    apply Hcw in Hxc. apply elem_of_component in Hxv; [|done].
    apply Hnew, Hseen. exists c. split; [done|]. apply Hcw.
    apply rtc_trans with x; [done|]. by apply connected_sym.
  - split; [set_solver|]. apply elem_of_union_r. by apply elem_of_component.
Qed.

Lemma fold_visit_inv vs seen out :
  (forall v, v ∈ vs -> v ∈ dom a) -> components_inv G seen out ->
  components_inv G (fold_left (visit a) vs (seen, out)).1
    (fold_left (visit a) vs (seen, out)).2 /\
  seen ⊆ (fold_left (visit a) vs (seen, out)).1 /\
  forall v, v ∈ vs -> v ∈ (fold_left (visit a) vs (seen, out)).1.
Proof.
  revert seen out. induction vs as [|v vs IH]; intros seen out Hvs Hinv.
  { simpl. split; [done|]. split; [done|]. intros v Hv. by apply elem_of_nil in Hv. }
  change (fold_left (visit a) (v :: vs) (seen, out))
    with (fold_left (visit a) vs (visit a (seen, out) v)).
  destruct (visit_inv seen out v) as (Hinv' & Hsub & Hv); [apply Hvs; left|done|].
  destruct (visit a (seen, out) v) as [seen' out']. cbn [fst snd] in Hinv', Hsub, Hv.
  destruct (IH seen' out') as (Hinv'' & Hsub' & Hall); [|done|].
  { intros w Hw. apply Hvs. by right. }
  split; [done|]. split; [set_solver|].
  intros w [->|Hw]%elem_of_cons; [set_solver|by apply Hall].
Qed.

(** [connected_components] yields the connected components of the graph:
    every set produced is the component of some node, every node
    (isolated ones too) is in a produced set, no two produced sets meet,
    and together they are the node set. *)
Lemma connected_components_obj_spec :
  let out := connected_components_obj G in
  (forall c, c ∈ out ->
     exists v, v ∈ dom a /\ forall x, x ∈ c <-> connected G v x) /\
  (forall v, v ∈ dom a -> exists c, c ∈ out /\ v ∈ c) /\
  ForallOrdPairs (fun c c' : gset node => c ## c') out /\
  ⋃ out = dom a.
Proof.
  intros out.
  destruct (fold_visit_inv (elements (dom a)) ∅ []) as ([Hseen Hcomp Hdisj] & _ & Hall).
  { intros v Hv. by apply elem_of_elements. }
  { split; [|by intros c Hc%elem_of_nil|constructor].
    intros x. split; [set_solver|]. by intros (c & Hc%elem_of_nil & _). }
  change (fold_left (visit a) (elements (dom a)) (∅, [])).2 with out in *.
  split; [done|]. split; [|split; [done|]].
  - intros v Hv. apply Hseen, Hall. by apply elem_of_elements.
  - apply set_eq. intros x. rewrite elem_of_union_list. split.
    + intros (c & Hc & Hx). destruct (Hcomp c Hc) as (v & Hv & Hcv).
      apply (connected_in_graph v); [done|]. by apply Hcv.
    + intros Hx. apply Hseen, Hall. by apply elem_of_elements.
Qed.
End components.

(** ** Construction of an ADMG *)

Ltac simpl_result :=
  repeat (progress (unfold mbind, result_bind, fmap, result_fmap, Py.bind in *; simpl in * )).

Lemma to_networkx_graph_ok h d :
  data_ok h d -> exists ns es, to_networkx_graph h d = Ok (ns, es).
Proof.
  destruct d as [|es|d|l]; simpl; eauto.
  intros [g Hg]. unfold deref. rewrite Hg. simpl_result. eauto.
Qed.

Lemma to_networkx_graph_alloc h d l g :
  data_ok h d -> h !! l = None ->
  to_networkx_graph (<[l := g]> h) d = to_networkx_graph h d.
Proof.
  destruct d as [|es|d|l']; simpl; try done.
  intros [g' Hg'] Hl. unfold deref.
  rewrite lookup_insert_ne; [done|]. intros ->. congruence.
Qed.

Lemma data_ok_alloc h d l g : data_ok h d -> data_ok (<[l := g]> h) d.
Proof.
  destruct d as [|es|d|l']; simpl; try done.
  intros Hsome. rewrite lookup_insert. case_decide; eauto.
Qed.

(** The three objects a construction allocates are new, different from one
    another, and leave every older object as it was. *)
Lemma fresh_layout (h : heap) (g1 g2 g3 : graph) :
  let l1 := fresh (dom h) in
  let h1 := <[l1 := g1]> h in
  let l2 := fresh (dom h1) in
  let h2 := <[l2 := g2]> h1 in
  let l3 := fresh (dom h2) in
  let h3 := <[l3 := g3]> h2 in
  l1 ≠ l2 /\ l1 ≠ l3 /\ l2 ≠ l3 /\
  h !! l1 = None /\ h !! l2 = None /\ h !! l3 = None /\
  h3 !! l1 = Some g1 /\ h3 !! l2 = Some g2 /\ h3 !! l3 = Some g3 /\
  (forall l, is_Some (h !! l) -> h3 !! l = h !! l).
Proof.
  intros l1 h1 l2 h2 l3 h3.
  pose proof (is_fresh (dom h)) as F1. fold l1 in F1.
  pose proof (is_fresh (dom h1)) as F2. fold l2 in F2.
  pose proof (is_fresh (dom h2)) as F3. fold l3 in F3.
  unfold h2 in F3. unfold h1 in F2, F3. rewrite !dom_insert_L in *.
  assert (l1 ≠ l2) by set_solver. assert (l1 ≠ l3) by set_solver.
  assert (l2 ≠ l3) by set_solver.
  assert (h !! l1 = None) by (apply not_elem_of_dom; set_solver).
  assert (h !! l2 = None) by (apply not_elem_of_dom; set_solver).
  assert (h !! l3 = None) by (apply not_elem_of_dom; set_solver).
  unfold h3, h2, h1. repeat split; try done.
  - rewrite lookup_insert_ne by done. rewrite lookup_insert_ne by done.
    apply lookup_insert_eq.
  - rewrite lookup_insert_ne by done. apply lookup_insert_eq.
  - apply lookup_insert_eq.
  - intros l [g Hg]. rewrite !lookup_insert_ne; [done|congruence..].
Qed.

Lemma add_edge_type_Ok_inv g name self self' :
  MixedEdgeGraph.add_edge_type g name self = Ok self' ->
  MixedEdgeGraph._edge_graphs self !! name = None /\
  self' = MixedEdgeGraph.mk (<[name := g]> (MixedEdgeGraph._edge_graphs self))
            (MixedEdgeGraph.graph self).
Proof.
  unfold MixedEdgeGraph.add_edge_type.
  destruct (MixedEdgeGraph._edge_graphs self !! name); [done|]. by intros [= <-].
Qed.

Lemma add_edge_type_fresh g name self :
  MixedEdgeGraph._edge_graphs self !! name = None ->
  MixedEdgeGraph.add_edge_type g name self =
  Ok (MixedEdgeGraph.mk (<[name := g]> (MixedEdgeGraph._edge_graphs self))
        (MixedEdgeGraph.graph self)).
Proof. unfold MixedEdgeGraph.add_edge_type. by intros ->. Qed.

(** What a successful construction looks like: three fresh objects, built
    from the three inputs in turn, registered under three different names. *)
Lemma init_Ok_inv dd db du dn bn un at_ h self h' :
  ADMG.__init__ dd db du dn bn un at_ h = Ok (self, h') ->
  exists nd ed nb eb nu eu,
    let l1 := fresh (dom h) in
    let h1 := <[l1 := Directed (build_DiGraph nd ed)]> h in
    let l2 := fresh (dom h1) in
    let h2 := <[l2 := Undirected (build_Graph nb eb)]> h1 in
    let l3 := fresh (dom h2) in
    to_networkx_graph h dd = Ok (nd, ed) /\
    to_networkx_graph h1 db = Ok (nb, eb) /\
    to_networkx_graph h2 du = Ok (nu, eu) /\
    dn ≠ bn /\ dn ≠ un /\ bn ≠ un /\
    self = mk_instance
             (MixedEdgeGraph.mk (<[un := l3]> (<[bn := l2]> (<[dn := l1]> ∅))) at_)
             dn bn un /\
    h' = <[l3 := Undirected (build_Graph nu eu)]> h2 /\
    has_cycle (build_DiGraph nd ed) = false.
Proof.
  unfold ADMG.__init__, nx_DiGraph, nx_Graph, alloc. intros Hrun.
  destruct (to_networkx_graph h dd) as [[nd ed]|] eqn:Hd; [|done].
  cbn [mbind result_bind Py.bind] in Hrun.
  destruct (MixedEdgeGraph.add_edge_type _ dn _) as [s1|] eqn:H1; [|done].
  apply add_edge_type_Ok_inv in H1 as [_ ->].
  cbn [mbind result_bind Py.bind] in Hrun.
  set (l1 := fresh (dom h)) in *.
  set (h1 := <[l1 := Directed (build_DiGraph nd ed)]> h) in *.
  destruct (to_networkx_graph h1 db) as [[nb eb]|] eqn:Hb; [|done].
  cbn [mbind result_bind Py.bind] in Hrun.
  destruct (MixedEdgeGraph.add_edge_type _ bn _) as [s2|] eqn:H2; [|done].
  apply add_edge_type_Ok_inv in H2 as [Hn2 ->].
  cbn [mbind result_bind Py.bind] in Hrun.
  set (l2 := fresh (dom h1)) in *.
  set (h2 := <[l2 := Undirected (build_Graph nb eb)]> h1) in *.
  destruct (to_networkx_graph h2 du) as [[nu eu]|] eqn:Hu; [|done].
  cbn [mbind result_bind Py.bind] in Hrun.
  destruct (MixedEdgeGraph.add_edge_type _ un _) as [s3|] eqn:H3; [|done].
  apply add_edge_type_Ok_inv in H3 as [Hn3 ->].
  cbn [mbind result_bind Py.bind] in Hrun.
  set (l3 := fresh (dom h2)) in *.
  simpl in Hn2, Hn3.
  apply lookup_insert_None in Hn2 as [_ Hdb].
  apply lookup_insert_None in Hn3 as [[_ Hdu]%lookup_insert_None Hbu].
  simpl in Hrun. unfold ADMG.sub_directed_graph, MixedEdgeGraph._get_internal_graph,
    MixedEdgeGraph.get_graphs in Hrun. simpl in Hrun.
  rewrite lookup_insert_ne in Hrun by done.
  rewrite lookup_insert_ne in Hrun by done.
  rewrite lookup_insert_eq in Hrun.
  simpl in Hrun. unfold deref in Hrun.
  destruct (fresh_layout h (Directed (build_DiGraph nd ed))
              (Undirected (build_Graph nb eb)) (Undirected (build_Graph nu eu)))
    as (_ & _ & _ & _ & _ & _ & Hl1 & _).
  fold l1 h1 l2 h2 l3 in Hl1. rewrite Hl1 in Hrun. simpl in Hrun.
  destruct (has_cycle (build_DiGraph nd ed)) eqn:Hcyc; simpl in Hrun; [done|].
  injection Hrun as <- <-.
  exists nd, ed, nb, eb, nu, eu. done.
Qed.

(** The other direction: with inputs that convert and three different
    names, construction runs to the acyclicity check and is decided by it. *)
Lemma init_run dd db du dn bn un at_ h nd ed nb eb nu eu :
  let l1 := fresh (dom h) in
  let h1 := <[l1 := Directed (build_DiGraph nd ed)]> h in
  let l2 := fresh (dom h1) in
  let h2 := <[l2 := Undirected (build_Graph nb eb)]> h1 in
  let l3 := fresh (dom h2) in
  to_networkx_graph h dd = Ok (nd, ed) ->
  to_networkx_graph h1 db = Ok (nb, eb) ->
  to_networkx_graph h2 du = Ok (nu, eu) ->
  dn ≠ bn -> dn ≠ un -> bn ≠ un ->
  ADMG.__init__ dd db du dn bn un at_ h =
  if has_cycle (build_DiGraph nd ed) then Raise RuntimeError
  else Ok (mk_instance
             (MixedEdgeGraph.mk (<[un := l3]> (<[bn := l2]> (<[dn := l1]> ∅))) at_)
             dn bn un,
           <[l3 := Undirected (build_Graph nu eu)]> h2).
Proof.
  intros l1 h1 l2 h2 l3 Hd Hb Hu Hdb Hdu Hbu.
  unfold ADMG.__init__, nx_DiGraph, nx_Graph, alloc.
  rewrite Hd. cbn [mbind result_bind Py.bind].
  rewrite add_edge_type_fresh by apply lookup_empty.
  cbn [mbind result_bind Py.bind]. fold l1 h1.
  rewrite Hb. cbn [mbind result_bind Py.bind].
  rewrite add_edge_type_fresh by (simpl; by rewrite lookup_insert_ne).
  cbn [mbind result_bind Py.bind]. fold l2 h2.
  rewrite Hu. cbn [mbind result_bind Py.bind].
  rewrite add_edge_type_fresh
    by (simpl; rewrite lookup_insert_ne by done; by rewrite lookup_insert_ne).
  cbn [mbind result_bind Py.bind]. fold l3.
  simpl. unfold ADMG.sub_directed_graph, MixedEdgeGraph._get_internal_graph,
    MixedEdgeGraph.get_graphs. simpl.
  rewrite lookup_insert_ne by done. rewrite lookup_insert_ne by done.
  rewrite lookup_insert_eq. simpl. unfold deref.
  destruct (fresh_layout h (Directed (build_DiGraph nd ed))
              (Undirected (build_Graph nb eb)) (Undirected (build_Graph nu eu)))
    as (_ & _ & _ & _ & _ & _ & Hl1 & _).
  fold l1 h1 l2 h2 l3 in Hl1. rewrite Hl1. simpl.
  by destruct (has_cycle (build_DiGraph nd ed)).
Qed.

(** With live inputs the three conversions see the caller's heap: the
    objects allocated on the way are not among the inputs. *)
Lemma init_run_ok dd db du dn bn un at_ h :
  data_ok h dd -> data_ok h db -> data_ok h du ->
  dn ≠ bn -> dn ≠ un -> bn ≠ un ->
  exists nd ed nb eb nu eu,
    let l1 := fresh (dom h) in
    let h1 := <[l1 := Directed (build_DiGraph nd ed)]> h in
    let l2 := fresh (dom h1) in
    let h2 := <[l2 := Undirected (build_Graph nb eb)]> h1 in
    let l3 := fresh (dom h2) in
    to_networkx_graph h dd = Ok (nd, ed) /\
    to_networkx_graph h db = Ok (nb, eb) /\
    to_networkx_graph h du = Ok (nu, eu) /\
    ADMG.__init__ dd db du dn bn un at_ h =
    if has_cycle (build_DiGraph nd ed) then Raise RuntimeError
    else Ok (mk_instance
               (MixedEdgeGraph.mk (<[un := l3]> (<[bn := l2]> (<[dn := l1]> ∅))) at_)
               dn bn un,
             <[l3 := Undirected (build_Graph nu eu)]> h2).
Proof.
  intros Hd Hb Hu Hdb Hdu Hbu.
  destruct (to_networkx_graph_ok h dd Hd) as (nd & ed & Hcd).
  destruct (to_networkx_graph_ok h db Hb) as (nb & eb & Hcb).
  destruct (to_networkx_graph_ok h du Hu) as (nu & eu & Hcu).
  exists nd, ed, nb, eb, nu, eu. intros l1 h1 l2 h2 l3.
  destruct (fresh_layout h (Directed (build_DiGraph nd ed))
              (Undirected (build_Graph nb eb)) (Undirected (build_Graph nu eu)))
    as (_ & _ & _ & F1 & F2 & _).
  fold l1 h1 l2 h2 l3 in F1, F2.
  assert (h1 !! l2 = None) as F2'.
  { apply not_elem_of_dom. apply is_fresh. }
  repeat split; try done.
  apply init_run; try done.
  - unfold h1. by rewrite to_networkx_graph_alloc.
  - unfold h2, h1. rewrite to_networkx_graph_alloc; [|by apply data_ok_alloc|done].
    by rewrite to_networkx_graph_alloc.
Qed.

(** A clash between role names stops construction at the registry. *)
Lemma init_duplicate dd db du dn un at_ h :
  data_ok h dd -> data_ok h db ->
  ADMG.__init__ dd db du dn dn un at_ h = Raise DuplicateEdgeTypeError.
Proof.
  intros Hd Hb.
  destruct (to_networkx_graph_ok h dd Hd) as (nd & ed & Hcd).
  destruct (to_networkx_graph_ok h db Hb) as (nb & eb & Hcb).
  unfold ADMG.__init__, nx_DiGraph, nx_Graph, alloc.
  rewrite Hcd. cbn [mbind result_bind Py.bind].
  rewrite add_edge_type_fresh by apply lookup_empty.
  cbn [mbind result_bind Py.bind].
  rewrite to_networkx_graph_alloc, Hcb;
    [|done|apply not_elem_of_dom; apply is_fresh].
  cbn [mbind result_bind Py.bind].
  unfold MixedEdgeGraph.add_edge_type. simpl. by rewrite lookup_insert_eq.
Qed.

(** The accessors of a constructed ADMG, on the heap it was built in. *)
Lemma views (h : heap) (g1 g2 g3 : graph) dn bn un at_ :
  dn ≠ bn -> dn ≠ un -> bn ≠ un ->
  let l1 := fresh (dom h) in
  let h1 := <[l1 := g1]> h in
  let l2 := fresh (dom h1) in
  let h2 := <[l2 := g2]> h1 in
  let l3 := fresh (dom h2) in
  let h3 := <[l3 := g3]> h2 in
  let self :=
    mk_instance
      (MixedEdgeGraph.mk (<[un := l3]> (<[bn := l2]> (<[dn := l1]> ∅))) at_)
      dn bn un in
  (ADMG.sub_directed_graph self = Ok (VGraph l1) /\
   ADMG.sub_bidirected_graph self = Ok (VGraph l2) /\
   ADMG.sub_undirected_graph self = Ok (VGraph l3)) /\
  (forall (hx : heap), hx !! l1 = Some g1 -> ADMG.directed_edges hx self = Ok (edges g1)) /\
  (forall (hx : heap), hx !! l2 = Some g2 -> ADMG.bidirected_edges hx self = Ok (edges g2)) /\
  (forall (hx : heap), hx !! l3 = Some g3 -> ADMG.undirected_edges hx self = Ok (edges g3)).
Proof.
  intros Hdb Hdu Hbu l1 h1 l2 h2 l3 h3 self.
  assert (MixedEdgeGraph._edge_graphs (base self) !! dn = Some l1) as R1.
  { simpl. rewrite lookup_insert_ne by done. rewrite lookup_insert_ne by done.
    apply lookup_insert_eq. }
  assert (MixedEdgeGraph._edge_graphs (base self) !! bn = Some l2) as R2.
  { simpl. rewrite lookup_insert_ne by done. apply lookup_insert_eq. }
  assert (MixedEdgeGraph._edge_graphs (base self) !! un = Some l3) as R3.
  { simpl. apply lookup_insert_eq. }
  unfold ADMG.sub_directed_graph, ADMG.sub_bidirected_graph, ADMG.sub_undirected_graph,
    ADMG.directed_edges, ADMG.bidirected_edges, ADMG.undirected_edges,
    MixedEdgeGraph._get_internal_graph, MixedEdgeGraph.get_graphs, edges_of, deref.
  change (_directed_name self) with dn. change (_bidirected_name self) with bn.
  change (_undirected_name self) with un.
  rewrite R1, R2, R3. repeat split; try done.
  all: intros hx Hx; cbn [mbind result_bind Py.bind]; by rewrite Hx.
Qed.

(** The unified node view collects the nodes of the registered objects. *)
Lemma elem_of_MixedEdgeGraph_nodes (h : heap) (self : MixedEdgeGraph.t) (x : node) :
  x ∈ MixedEdgeGraph.nodes h self <->
  exists name l g, MixedEdgeGraph._edge_graphs self !! name = Some l /\
                   h !! l = Some g /\ x ∈ nodes g.
Proof.
  unfold MixedEdgeGraph.nodes. rewrite elem_of_union_list. split.
  - intros [X [HX Hx]]. apply list_elem_of_fmap in HX as [l [-> Hl]].
    apply list_elem_of_fmap in Hl as [[name l'] [-> Hl]].
    apply elem_of_map_to_list in Hl. simpl in *.
    destruct (h !! l') as [g|] eqn:E; simpl in Hx; [|set_solver]. eauto 6.
  - intros (name & l & g & Hreg & Hl & Hx).
    exists (nodes g). split; [|done].
    apply list_elem_of_fmap. exists l. rewrite Hl. split; [done|].
    apply list_elem_of_fmap. exists (name, l). split; [done|].
    by apply elem_of_map_to_list.
Qed.

(** The unified node view reads the heap only at the registered objects. *)
Lemma MixedEdgeGraph_nodes_ext (h h' : heap) (self : MixedEdgeGraph.t) :
  (forall name l, MixedEdgeGraph._edge_graphs self !! name = Some l -> h' !! l = h !! l) ->
  MixedEdgeGraph.nodes h' self = MixedEdgeGraph.nodes h self.
Proof.
  intros Hsame. apply set_eq. intros x. rewrite !elem_of_MixedEdgeGraph_nodes.
  split; intros (name & l & g & Hreg & Hl & Hx); exists name, l, g;
    (split; [done|]); (split; [|done]).
  - by rewrite <- (Hsame name l Hreg).
  - by rewrite (Hsame name l Hreg).
Qed.

(** Calling the bound method of an accessor runs the accessor. *)
Lemma call_sub_directed_graph self :
  ADMG.call (attr self "sub_directed_graph") = ADMG.sub_directed_graph self.
Proof. reflexivity. Qed.

Lemma call_sub_bidirected_graph self :
  ADMG.call (attr self "sub_bidirected_graph") = ADMG.sub_bidirected_graph self.
Proof. reflexivity. Qed.

Lemma call_sub_undirected_graph self :
  ADMG.call (attr self "sub_undirected_graph") = ADMG.sub_undirected_graph self.
Proof. reflexivity. Qed.

(** ** Construction and the acyclicity check *)

(** C1, as amended: for live inputs and three pairwise different role names
    (the defaults are), construction builds the directed sub-graph [D] from
    the directed input alone and raises RuntimeError exactly when [D] has a
    directed cycle; whatever the bidirected and undirected inputs are, an
    acyclic [D] makes construction succeed, and a constructed ADMG holds [D],
    acyclic, as its directed sub-graph. *)
Theorem init_raises_iff_directed_cycle h dd db du dn bn un at_ :
  data_ok h dd -> data_ok h db -> data_ok h du ->
  dn ≠ bn -> dn ≠ un -> bn ≠ un ->
  exists D,
    directed_of h dd = Ok D /\
    (ADMG.__init__ dd db du dn bn un at_ h = Raise RuntimeError <-> contains_cycle D) /\
    (~ contains_cycle D -> returns (ADMG.__init__ dd db du dn bn un at_ h)) /\
    (forall self h', ADMG.__init__ dd db du dn bn un at_ h = Ok (self, h') ->
       exists l, ADMG.sub_directed_graph self = Ok (VGraph l) /\
                 h' !! l = Some (Directed D) /\ ~ contains_cycle D).
Proof.
  intros Hd Hb Hu Hdb Hdu Hbu.
  destruct (init_run_ok dd db du dn bn un at_ h Hd Hb Hu Hdb Hdu Hbu)
    as (nd & ed & nb & eb & nu & eu & Hcd & _ & _ & Hinit).
  exists (build_DiGraph nd ed). split.
  { unfold directed_of. by rewrite Hcd. }
  rewrite Hinit. clear Hinit.
  pose proof (has_cycle_spec _ (build_DiGraph_well_formed nd ed)) as Hspec.
  destruct (has_cycle (build_DiGraph nd ed)) eqn:Hcyc.
  - assert (contains_cycle (build_DiGraph nd ed)) as Hc by by apply Hspec.
    split; [done|]. split; [done|]. intros self h' [=].
  - assert (~ contains_cycle (build_DiGraph nd ed)) as Hc.
    { intros Hc. apply Hspec in Hc. done. }
    split; [split; [done|by intros ?]|]. split; [intros _; by eexists|].
    intros self h' [= <- <-].
    destruct (views h (Directed (build_DiGraph nd ed)) (Undirected (build_Graph nb eb))
                (Undirected (build_Graph nu eu)) dn bn un at_ Hdb Hdu Hbu)
      as [[Hsub _] _].
    destruct (fresh_layout h (Directed (build_DiGraph nd ed))
                (Undirected (build_Graph nb eb)) (Undirected (build_Graph nu eu)))
      as (_ & _ & _ & _ & _ & _ & Hl1 & _).
    eexists. split; [exact Hsub|]. split; [exact Hl1|exact Hc].
Qed.

Lemma init_raises_iff_directed_cycle_witness :
  exists D,
    directed_of ∅ (DataEdges [(1, 2); (2, 3)]) = Ok D /\
    (ADMG.__init__ (DataEdges [(1, 2); (2, 3)]) (DataEdges [(1, 3)]) DataNone
       "directed" "bidirected" "undirected" ∅ ∅ = Raise RuntimeError
     <-> contains_cycle D) /\
    (~ contains_cycle D ->
     returns (ADMG.__init__ (DataEdges [(1, 2); (2, 3)]) (DataEdges [(1, 3)]) DataNone
                "directed" "bidirected" "undirected" ∅ ∅)) /\
    (forall self h',
       ADMG.__init__ (DataEdges [(1, 2); (2, 3)]) (DataEdges [(1, 3)]) DataNone
         "directed" "bidirected" "undirected" ∅ ∅ = Ok (self, h') ->
       exists l, ADMG.sub_directed_graph self = Ok (VGraph l) /\
                 h' !! l = Some (Directed D) /\ ~ contains_cycle D).
Proof.
  apply (init_raises_iff_directed_cycle ∅ (DataEdges [(1, 2); (2, 3)])
           (DataEdges [(1, 3)]) DataNone "directed" "bidirected" "undirected" ∅);
    simpl; done.
Defined.

(** C1, the claim as stated, fails when two roles are given one name: the
    directed edges [1 -> 2] are acyclic, and construction does not succeed;
    it stops at the registry with DuplicateEdgeTypeError. *)
Lemma init_name_clash_counterexample :
  directed_of ∅ (DataEdges [(1, 2)]) = Ok (build_DiGraph [] [(1, 2)]) /\
  ~ contains_cycle (build_DiGraph [] [(1, 2)]) /\
  ADMG.__init__ (DataEdges [(1, 2)]) (DataEdges [(1, 3)]) DataNone
    "causal" "causal" "selection" ∅ ∅ = Raise DuplicateEdgeTypeError /\
  ~ returns (ADMG.__init__ (DataEdges [(1, 2)]) (DataEdges [(1, 3)]) DataNone
               "causal" "causal" "selection" ∅ ∅).
Proof.
  assert (ADMG.__init__ (DataEdges [(1, 2)]) (DataEdges [(1, 3)]) DataNone
            "causal" "causal" "selection" ∅ ∅ = Raise DuplicateEdgeTypeError) as Hrun.
  { by apply init_duplicate. }
  split; [done|]. split.
  - apply has_cycle_false; [apply build_DiGraph_well_formed|]. by vm_compute.
  - split; [done|]. rewrite Hrun. by intros [? ?].
Qed.

(** Everything known about a constructed ADMG, in one step. *)
Ltac construction Hrun :=
  let nd := fresh "nd" in let ed := fresh "ed" in
  let nb := fresh "nb" in let eb := fresh "eb" in
  let nu := fresh "nu" in let eu := fresh "eu" in
  apply init_Ok_inv in Hrun
    as (nd & ed & nb & eb & nu & eu & Hcd & Hcb & Hcu & Hdb & Hdu & Hbu & -> & -> & Hcyc);
  match goal with
  | |- context [mk_instance (MixedEdgeGraph.mk _ ?at_) ?dn ?bn ?un] =>
      match type of Hcd with
      | to_networkx_graph ?h _ = _ =>
          destruct (views h (Directed (build_DiGraph nd ed))
                      (Undirected (build_Graph nb eb))
                      (Undirected (build_Graph nu eu)) dn bn un at_ Hdb Hdu Hbu)
            as ((Hsub1 & Hsub2 & Hsub3) & Hed & Heb & Heu);
          destruct (fresh_layout h (Directed (build_DiGraph nd ed))
                      (Undirected (build_Graph nb eb))
                      (Undirected (build_Graph nu eu)))
            as (Hl12 & Hl13 & Hl23 & Hn1 & Hn2 & Hn3 & Hl1 & Hl2 & Hl3 & Hold)
      end
  end.

(** ** The bidirected and undirected sub-graphs *)

(** C6, as amended: in every constructed ADMG the bidirected and the
    undirected edge relations are symmetric; self-loops are not excluded:
    for an edge-list input, [(u, v)] is an edge exactly when the input lists
    [(u, v)] or [(v, u)], so an input self-loop [(u, u)] is kept. *)
Theorem undirected_roles_symmetric h dd db du dn bn un at_ self h' :
  ADMG.__init__ dd db du dn bn un at_ h = Ok (self, h') ->
  exists Eb Eu : gset (node * node),
    ADMG.bidirected_edges h' self = Ok Eb /\
    ADMG.undirected_edges h' self = Ok Eu /\
    (forall u v, (u, v) ∈ Eb <-> (v, u) ∈ Eb) /\
    (forall u v, (u, v) ∈ Eu <-> (v, u) ∈ Eu) /\
    (forall es, db = DataEdges es ->
       forall u v, (u, v) ∈ Eb <-> (u, v) ∈ es \/ (v, u) ∈ es) /\
    (forall es, du = DataEdges es ->
       forall u v, (u, v) ∈ Eu <-> (u, v) ∈ es \/ (v, u) ∈ es).
Proof.
  intros Hrun. construction Hrun.
  exists (edges (Undirected (build_Graph nb eb))), (edges (Undirected (build_Graph nu eu))).
  split; [by apply Heb|]. split; [by apply Heu|].
  repeat split.
  - rewrite !elem_of_edges. apply build_Graph_symmetric.
  - rewrite !elem_of_edges. apply build_Graph_symmetric.
  - rewrite !elem_of_edges. apply build_Graph_symmetric.
  - rewrite !elem_of_edges. apply build_Graph_symmetric.
  - rewrite elem_of_edges. simpl. rewrite elem_of_build_Graph.
    subst db. simpl in Hcb. by injection Hcb as <- <-.
  - rewrite elem_of_edges. simpl. rewrite elem_of_build_Graph.
    subst db. simpl in Hcb. by injection Hcb as <- <-.
  - rewrite elem_of_edges. simpl. rewrite elem_of_build_Graph.
    subst du. simpl in Hcu. by injection Hcu as <- <-.
  - rewrite elem_of_edges. simpl. rewrite elem_of_build_Graph.
    subst du. simpl in Hcu. by injection Hcu as <- <-.
Qed.

Lemma undirected_roles_symmetric_witness :
  exists self h',
    ADMG.__init__ DataNone (DataEdges [(1, 2); (3, 3)]) (DataEdges [(4, 5)])
      "directed" "bidirected" "undirected" ∅ ∅ = Ok (self, h') /\
    exists Eb Eu : gset (node * node),
      ADMG.bidirected_edges h' self = Ok Eb /\
      ADMG.undirected_edges h' self = Ok Eu /\
      (forall u v, (u, v) ∈ Eb <-> (v, u) ∈ Eb) /\
      (forall u v, (u, v) ∈ Eu <-> (v, u) ∈ Eu) /\
      (forall es, DataEdges [(1, 2); (3, 3)] = DataEdges es ->
         forall u v, (u, v) ∈ Eb <-> (u, v) ∈ es \/ (v, u) ∈ es) /\
      (forall es, DataEdges [(4, 5)] = DataEdges es ->
         forall u v, (u, v) ∈ Eu <-> (u, v) ∈ es \/ (v, u) ∈ es).
Proof.
  eexists _, _. split; [reflexivity|].
  apply (undirected_roles_symmetric ∅ DataNone (DataEdges [(1, 2); (3, 3)])
           (DataEdges [(4, 5)]) "directed" "bidirected" "undirected" ∅).
  reflexivity.
Defined.

(** C6, the claim as stated, fails on a self-loop: [nx.Graph] accepts the
    bidirected input [[(1, 1)]], construction succeeds, and [(1, 1)] is an
    edge of the bidirected sub-graph. *)
Lemma bidirected_self_loop_counterexample :
  (r ← ADMG.new DataNone (DataEdges [(1, 1)]) DataNone ∅;
   E ← ADMG.bidirected_edges r.2 r.1;
   Ok (bool_decide ((1, 1) ∈ E))) = Ok true.
Proof. vm_compute. reflexivity. Qed.

Lemma registry3_lookup (dn bn un name : string) (l1 l2 l3 l : loc) :
  (<[un := l3]> (<[bn := l2]> (<[dn := l1]> ∅)) : gmap string loc) !! name = Some l ->
  l = l1 \/ l = l2 \/ l = l3.
Proof.
  rewrite !lookup_insert. repeat case_decide; try rewrite lookup_empty;
    intros [=]; auto.
Qed.

(** ** Role accessors *)

(** C10: a constructed ADMG stores the three role names it was given, and
    they are pairwise different; each role accessor returns the object
    registered under the stored name of its role, and each edge accessor the
    edges of that object.  The object under the directed name is the DiGraph
    built from the directed input; the two others are Graphs. *)
Theorem accessors_follow_role_names h dd db du dn bn un at_ self h' :
  ADMG.__init__ dd db du dn bn un at_ h = Ok (self, h') ->
  (dn ≠ bn /\ dn ≠ un /\ bn ≠ un) /\
  (_directed_name self = dn /\ _bidirected_name self = bn /\ _undirected_name self = un) /\
  exists ld lb lu D Gb Gu,
    (MixedEdgeGraph._edge_graphs (base self) !! dn = Some ld /\
     MixedEdgeGraph._edge_graphs (base self) !! bn = Some lb /\
     MixedEdgeGraph._edge_graphs (base self) !! un = Some lu) /\
    (directed_of h dd = Ok D /\
     h' !! ld = Some (Directed D) /\
     h' !! lb = Some (Undirected Gb) /\
     h' !! lu = Some (Undirected Gu)) /\
    (ADMG.sub_directed_graph self = Ok (VGraph ld) /\
     ADMG.sub_bidirected_graph self = Ok (VGraph lb) /\
     ADMG.sub_undirected_graph self = Ok (VGraph lu)) /\
    (ADMG.directed_edges h' self = Ok (edges (Directed D)) /\
     ADMG.bidirected_edges h' self = Ok (edges (Undirected Gb)) /\
     ADMG.undirected_edges h' self = Ok (edges (Undirected Gu))).
Proof.
  intros Hrun. construction Hrun.
  split; [done|]. split; [done|].
  eexists _, _, _, (build_DiGraph nd ed), (build_Graph nb eb), (build_Graph nu eu).
  split; [|split; [|split]].
  - simpl. repeat split.
    + rewrite lookup_insert_ne by done. rewrite lookup_insert_ne by done.
      apply lookup_insert_eq.
    + rewrite lookup_insert_ne by done. apply lookup_insert_eq.
    + apply lookup_insert_eq.
  - unfold directed_of. rewrite Hcd. done.
  - done.
  - split; [by apply Hed|]. split; [by apply Heb|by apply Heu].
Qed.

Lemma accessors_follow_role_names_witness :
  exists self h',
    ADMG.__init__ (DataEdges [(1, 2)]) (DataEdges [(2, 3)]) (DataEdges [(3, 4)])
      "causal" "confounded" "selection" ∅ ∅ = Ok (self, h') /\
    (("causal" ≠ "confounded" /\ "causal" ≠ "selection" /\ "confounded" ≠ "selection") /\
     (_directed_name self = "causal" /\ _bidirected_name self = "confounded" /\
      _undirected_name self = "selection") /\
     exists ld lb lu D Gb Gu,
       (MixedEdgeGraph._edge_graphs (base self) !! "causal" = Some ld /\
        MixedEdgeGraph._edge_graphs (base self) !! "confounded" = Some lb /\
        MixedEdgeGraph._edge_graphs (base self) !! "selection" = Some lu) /\
       (directed_of ∅ (DataEdges [(1, 2)]) = Ok D /\
        h' !! ld = Some (Directed D) /\
        h' !! lb = Some (Undirected Gb) /\
        h' !! lu = Some (Undirected Gu)) /\
       (ADMG.sub_directed_graph self = Ok (VGraph ld) /\
        ADMG.sub_bidirected_graph self = Ok (VGraph lb) /\
        ADMG.sub_undirected_graph self = Ok (VGraph lu)) /\
       (ADMG.directed_edges h' self = Ok (edges (Directed D)) /\
        ADMG.bidirected_edges h' self = Ok (edges (Undirected Gb)) /\
        ADMG.undirected_edges h' self = Ok (edges (Undirected Gu)))).
Proof.
  eexists _, _. split; [reflexivity|].
  apply (accessors_follow_role_names ∅ (DataEdges [(1, 2)]) (DataEdges [(2, 3)])
           (DataEdges [(3, 4)]) "causal" "confounded" "selection" ∅).
  reflexivity.
Defined.

(** ** Ownership of the sub-graphs *)

(** C8: when one of the inputs is a graph object [l0] of the caller, holding
    [g0], no registered sub-graph is that object: each is a new object, and
    the one built from [l0] has the edges of [g0] (in both orientations for
    an undirected role).  Whatever the caller's object is changed into
    afterwards, the registered objects, the three edge views and the unified
    node view stay as they were. *)
Theorem caller_graph_not_aliased h dd db du dn bn un at_ self h' l0 g0 g' :
  dd = DataGraph l0 \/ db = DataGraph l0 \/ du = DataGraph l0 ->
  h !! l0 = Some g0 ->
  ADMG.__init__ dd db du dn bn un at_ h = Ok (self, h') ->
  let h'' := <[l0 := g']> h' in
  (forall name l, MixedEdgeGraph._edge_graphs (base self) !! name = Some l ->
     l ≠ l0 /\ h !! l = None /\ h'' !! l = h' !! l) /\
  (exists Ed Eb Eu : gset (node * node),
     ADMG.directed_edges h' self = Ok Ed /\
     ADMG.bidirected_edges h' self = Ok Eb /\
     ADMG.undirected_edges h' self = Ok Eu /\
     (dd = DataGraph l0 -> forall u v, (u, v) ∈ Ed <-> (u, v) ∈ edges g0) /\
     (db = DataGraph l0 ->
      forall u v, (u, v) ∈ Eb <-> (u, v) ∈ edges g0 \/ (v, u) ∈ edges g0) /\
     (du = DataGraph l0 ->
      forall u v, (u, v) ∈ Eu <-> (u, v) ∈ edges g0 \/ (v, u) ∈ edges g0)) /\
  ADMG.directed_edges h'' self = ADMG.directed_edges h' self /\
  ADMG.bidirected_edges h'' self = ADMG.bidirected_edges h' self /\
  ADMG.undirected_edges h'' self = ADMG.undirected_edges h' self /\
  MixedEdgeGraph.nodes h'' (base self) = MixedEdgeGraph.nodes h' (base self).
Proof.
  intros _ Hg0 Hrun h''. construction Hrun.
  match goal with
  | h'' := <[l0 := g']> ?x |- _ => set (h3 := x) in *
  end.
  assert (forall l, h !! l = None -> l ≠ l0 /\ h'' !! l = h3 !! l) as Hfresh.
  { intros l Hl. assert (l ≠ l0) by congruence.
    split; [done|]. unfold h''. by rewrite lookup_insert_ne. }
  destruct (Hfresh _ Hn1) as [Hne1 E1]. destruct (Hfresh _ Hn2) as [Hne2 E2].
  destruct (Hfresh _ Hn3) as [_ E3].
  split; [|split; [|split; [|split; [|split]]]].
  - simpl. intros name l Hl.
    apply registry3_lookup in Hl as [-> | [-> | ->] ]; split; try done;
      by apply Hfresh.
  - eexists _, _, _. split; [by apply Hed|]. split; [by apply Heb|].
    split; [by apply Heu|]. split; [|split].
    + intros -> u v. simpl in Hcd. unfold deref in Hcd. rewrite Hg0 in Hcd.
      injection Hcd as <- <-.
      rewrite !elem_of_edges. simpl.
      by rewrite elem_of_build_DiGraph_succ, elem_of_adj_edge_list.
    + intros -> u v. simpl in Hcb. unfold deref in Hcb.
      rewrite lookup_insert_ne, Hg0 in Hcb by done. injection Hcb as <- <-.
      rewrite !elem_of_edges. simpl.
      by rewrite elem_of_build_Graph, !elem_of_adj_edge_list.
    + intros -> u v. simpl in Hcu. unfold deref in Hcu.
      rewrite lookup_insert_ne in Hcu by done.
      rewrite lookup_insert_ne, Hg0 in Hcu by done. injection Hcu as <- <-.
      rewrite !elem_of_edges. simpl.
      by rewrite elem_of_build_Graph, !elem_of_adj_edge_list.
  - rewrite (Hed h''), (Hed _ Hl1); [done|]. by rewrite E1.
  - rewrite (Heb h''), (Heb _ Hl2); [done|]. by rewrite E2.
  - rewrite (Heu h''), (Heu _ Hl3); [done|]. by rewrite E3.
  - apply MixedEdgeGraph_nodes_ext. simpl. intros name l Hl.
    apply registry3_lookup in Hl as [-> | [-> | ->] ]; by apply Hfresh.
Qed.

Lemma caller_graph_not_aliased_witness :
  exists self h',
    ADMG.__init__ (DataGraph 1%positive) (DataGraph 1%positive) DataNone
      "directed" "bidirected" "undirected" ∅
      ({[ 1%positive := Directed (build_DiGraph [] [(1, 2)]) ]} : heap) = Ok (self, h') /\
    let h'' := <[1%positive := (Directed (build_DiGraph [] [(1, 2); (2, 1); (7, 8)]))]> h' in
    (forall name l, MixedEdgeGraph._edge_graphs (base self) !! name = Some l ->
       l ≠ 1%positive /\
       ({[ 1%positive := Directed (build_DiGraph [] [(1, 2)]) ]} : heap) !! l = None /\
       h'' !! l = h' !! l) /\
    (exists Ed Eb Eu : gset (node * node),
       ADMG.directed_edges h' self = Ok Ed /\
       ADMG.bidirected_edges h' self = Ok Eb /\
       ADMG.undirected_edges h' self = Ok Eu /\
       (DataGraph 1%positive = DataGraph 1%positive ->
        forall u v, (u, v) ∈ Ed <-> (u, v) ∈ edges (Directed (build_DiGraph [] [(1, 2)]))) /\
       (DataGraph 1%positive = DataGraph 1%positive ->
        forall u v, (u, v) ∈ Eb <->
          (u, v) ∈ edges (Directed (build_DiGraph [] [(1, 2)])) \/ (v, u) ∈ edges (Directed (build_DiGraph [] [(1, 2)]))) /\
       (DataNone = DataGraph 1%positive ->
        forall u v, (u, v) ∈ Eu <->
          (u, v) ∈ edges (Directed (build_DiGraph [] [(1, 2)])) \/ (v, u) ∈ edges (Directed (build_DiGraph [] [(1, 2)])))) /\
    ADMG.directed_edges h'' self = ADMG.directed_edges h' self /\
    ADMG.bidirected_edges h'' self = ADMG.bidirected_edges h' self /\
    ADMG.undirected_edges h'' self = ADMG.undirected_edges h' self /\
    MixedEdgeGraph.nodes h'' (base self) = MixedEdgeGraph.nodes h' (base self).
Proof.
  eexists _, _. split; [reflexivity|].
  apply (caller_graph_not_aliased {[ 1%positive := Directed (build_DiGraph [] [(1, 2)]) ]}
           (DataGraph 1%positive) (DataGraph 1%positive) DataNone
           "directed" "bidirected" "undirected" ∅ _ _ 1%positive
           (Directed (build_DiGraph [] [(1, 2)]))
           (Directed (build_DiGraph [] [(1, 2); (2, 1); (7, 8)]))).
  - left. reflexivity.
  - reflexivity.
  - reflexivity.
Defined.

(** ** The empty ADMG *)

(** C9, on the code: construction with no input succeeds on every heap and
    registers exactly the names "directed", "bidirected" and "undirected",
    each with an empty graph, so the three edge views are empty; but
    [c_components()] does not produce an empty sequence: it raises
    AttributeError, because it hands the bound method
    [self.sub_bidirected_graph] to networkx.  Calling the accessor first
    gives the empty sequence. *)
Theorem empty_admg (h : heap) :
  exists self h',
    ADMG.new DataNone DataNone DataNone h = Ok (self, h') /\
    dom (MixedEdgeGraph._edge_graphs (base self))
      = ({["directed"; "bidirected"; "undirected"]} : gset string) /\
    (forall name l, MixedEdgeGraph._edge_graphs (base self) !! name = Some l ->
       exists g, h' !! l = Some g /\ nodes g = ∅ /\ edges g = ∅) /\
    ADMG.directed_edges h' self = Ok ∅ /\
    ADMG.bidirected_edges h' self = Ok ∅ /\
    ADMG.undirected_edges h' self = Ok ∅ /\
    ADMG.c_components h' self = Raise AttributeError /\
    (G ← ADMG.call (attr self "sub_bidirected_graph"); connected_components h' G) = Ok [].
Proof.
  assert ("directed" ≠ "bidirected") as Hdb by done.
  assert ("directed" ≠ "undirected") as Hdu by done.
  assert ("bidirected" ≠ "undirected") as Hbu by done.
  pose proof (init_run DataNone DataNone DataNone "directed" "bidirected" "undirected"
                ∅ h [] [] [] [] [] [] eq_refl eq_refl eq_refl Hdb Hdu Hbu) as Hrun.
  assert (has_cycle (build_DiGraph [] []) = false) as Hc by (by vm_compute).
  rewrite Hc in Hrun. clear Hc.
  destruct (views h (Directed (build_DiGraph [] [])) (Undirected (build_Graph [] []))
              (Undirected (build_Graph [] [])) "directed" "bidirected" "undirected" ∅
              Hdb Hdu Hbu) as ((Hsub1 & Hsub2 & Hsub3) & Hed & Heb & Heu).
  destruct (fresh_layout h (Directed (build_DiGraph [] [])) (Undirected (build_Graph [] []))
              (Undirected (build_Graph [] [])))
    as (_ & _ & _ & _ & _ & _ & Hl1 & Hl2 & Hl3 & _).
  eexists _, _. split; [exact Hrun|].
  split; [|split; [|split; [|split; [|split; [|split]]]]].
  - simpl. rewrite !dom_insert_L, dom_empty_L. set_solver.
  - simpl. intros name l Hl.
    apply registry3_lookup in Hl as [-> | [-> | ->] ]; eexists; (split; [eassumption|done]).
  - by rewrite (Hed _ Hl1).
  - by rewrite (Heb _ Hl2).
  - by rewrite (Heu _ Hl3).
  - done.
  - rewrite call_sub_bidirected_graph.
    rewrite Hsub2. cbn [mbind result_bind Py.bind connected_components].
    unfold deref. rewrite Hl2. done.
Qed.

(** ** The ancestral queries and [c_components] *)

(** [AncestralMixin] and [c_components] write [self.sub_directed_graph] and
    [self.sub_bidirected_graph] without calling them, where [__init__]
    (line 123) writes [self.sub_directed_graph()].  networkx is handed a
    bound method, whatever the ADMG and the node. *)


Lemma descendants_raises h self source :
  AncestralMixin.descendants h self source = Raise AttributeError.
Proof. reflexivity. Qed.

Lemma children_raises h self n :
  AncestralMixin.children h self n = Raise AttributeError.
Proof. reflexivity. Qed.

Lemma parents_raises h self n :
  AncestralMixin.parents h self n = Raise AttributeError.
Proof. reflexivity. Qed.

Lemma c_components_raises h self :
  ADMG.c_components h self = Raise AttributeError.
Proof. reflexivity. Qed.

(** C2, on the code: [ancestors] and [descendants] return no set; for every
    ADMG and every node they raise AttributeError.  On the ADMG with directed
    edges [1 -> 2 -> 3], networkx applied to the called accessor gives what
    the claim describes: ancestors of 3 are [{1, 2}], descendants of 1 are
    [{2, 3}], and a node that is absent raises NetworkXError. *)
Theorem ancestors_descendants_on_code :
  (forall h self source,
     AncestralMixin.ancestors h self source = Raise AttributeError /\
     AncestralMixin.descendants h self source = Raise AttributeError) /\
  (r ← ADMG.new (DataEdges [(1, 2); (2, 3)]) DataNone DataNone ∅;
   G ← ADMG.call (attr r.1 "sub_directed_graph");
   Ok (AncestralMixin.ancestors r.2 r.1 3,
       AncestralMixin.descendants r.2 r.1 1,
       elements <$> nx_ancestors r.2 G 3,
       elements <$> nx_descendants r.2 G 1,
       elements <$> nx_ancestors r.2 G 5))
  = Ok (Raise AttributeError, Raise AttributeError, Ok [2; 1], Ok [3; 2], Raise NetworkXError).
Proof. split; [done|]. by vm_compute. Qed.

(** C3, on the code: [children] and [parents] produce no node; for every
    ADMG and every node they raise AttributeError.  On the ADMG with the one
    directed edge [1 -> 2] and the bidirected edge [1 <-> 3], the called
    accessor gives [successors(1) = {2}] and [predecessors(2) = {1}]. *)
Theorem children_parents_on_code :
  (forall h self n,
     AncestralMixin.children h self n = Raise AttributeError /\
     AncestralMixin.parents h self n = Raise AttributeError) /\
  (r ← ADMG.new (DataEdges [(1, 2)]) (DataEdges [(1, 3)]) DataNone ∅;
   G ← ADMG.call (attr r.1 "sub_directed_graph");
   Ok (elements <$> ADMG.directed_edges r.2 r.1,
       AncestralMixin.children r.2 r.1 1,
       AncestralMixin.parents r.2 r.1 2,
       elements <$> successors r.2 G 1,
       elements <$> predecessors r.2 G 2))
  = Ok (Ok [(1, 2)], Raise AttributeError, Raise AttributeError, Ok [2], Ok [1]).
Proof. split; [done|]. by vm_compute. Qed.

(** C4, on the code: [c_components] produces no set; for every ADMG it
    raises AttributeError.  On the bidirected edges [(1,2), (2,3), (4,5)]
    networkx applied to the called accessor gives the two components
    [{4, 5}] and [{1, 2, 3}]. *)
Theorem c_components_on_code :
  (forall h self, ADMG.c_components h self = Raise AttributeError) /\
  (r ← ADMG.new DataNone (DataEdges [(1, 2); (2, 3); (4, 5)]) DataNone ∅;
   G ← ADMG.call (attr r.1 "sub_bidirected_graph");
   Ok (ADMG.c_components r.2 r.1,
       fmap (M := list) elements <$> connected_components r.2 G))
  = Ok (Raise AttributeError, Ok [[5; 4]; [3; 2; 1]]).
Proof. split; [done|]. by vm_compute. Qed.

(** C5, on the code: on the ADMG with the directed edge [1 -> 2], node 5 is
    not in the directed sub-graph and [children(5)] raises AttributeError,
    the error it raises for every node, present or not; the node-not-found
    error of networkx (NetworkXError) is what the called accessor gives. *)
Theorem children_of_absent_node_on_code :
  (r ← ADMG.new (DataEdges [(1, 2)]) DataNone DataNone ∅;
   G ← ADMG.call (attr r.1 "sub_directed_graph");
   Ok (bool_decide (5 ∈ MixedEdgeGraph.nodes r.2 (base r.1)),
       AncestralMixin.children r.2 r.1 5,
       AncestralMixin.children r.2 r.1 1,
       elements <$> successors r.2 G 5))
  = Ok (false, Raise AttributeError, Raise AttributeError, Raise NetworkXError).
Proof. by vm_compute. Qed.

(** ** The same queries, with the accessor called *)

(** What the docstrings of [AncestralMixin] and of [c_components] describe
    is what networkx returns on [self.sub_directed_graph()] and
    [self.sub_bidirected_graph()], the expression [__init__] uses. *)

Lemma constructed_directed h dd db du dn bn un at_ self h' :
  ADMG.__init__ dd db du dn bn un at_ h = Ok (self, h') ->
  exists l D,
    ADMG.call (attr self "sub_directed_graph") = Ok (VGraph l) /\
    h' !! l = Some (Directed D) /\
    well_formed D /\ ~ contains_cycle D /\
    ADMG.directed_edges h' self = Ok (edges (Directed D)).
Proof.
  intros Hrun. construction Hrun. rewrite call_sub_directed_graph.
  eexists _, _. split; [exact Hsub1|]. split; [exact Hl1|].
  split; [apply build_DiGraph_well_formed|]. split; [|by apply Hed].
  by apply has_cycle_false; [apply build_DiGraph_well_formed|].
Qed.

Lemma constructed_bidirected h dd db du dn bn un at_ self h' :
  ADMG.__init__ dd db du dn bn un at_ h = Ok (self, h') ->
  exists l G,
    ADMG.call (attr self "sub_bidirected_graph") = Ok (VGraph l) /\
    h' !! l = Some (Undirected G) /\
    well_formed_undirected G /\
    ADMG.bidirected_edges h' self = Ok (edges (Undirected G)).
Proof.
  intros Hrun. construction Hrun. rewrite call_sub_bidirected_graph.
  eexists _, _. split; [exact Hsub2|]. split; [exact Hl2|].
  split; [apply build_Graph_well_formed|by apply Heb].
Qed.

(** Ancestors and descendants (the content of C2), on the called accessor. *)
Lemma called_ancestors_descendants h dd db du dn bn un at_ self h' :
  ADMG.__init__ dd db du dn bn un at_ h = Ok (self, h') ->
  exists G D,
    ADMG.call (attr self "sub_directed_graph") = Ok G /\
    ADMG.directed_edges h' self = Ok (edges (Directed D)) /\
    forall source,
      (source ∈ nodes (Directed D) ->
       exists A Ds,
         nx_ancestors h' G source = Ok A /\ nx_descendants h' G source = Ok Ds /\
         (forall a, a ∈ A <-> a ≠ source /\ tc (edge D) a source) /\
         (forall d, d ∈ Ds <-> d ≠ source /\ tc (edge D) source d)) /\
      (source ∉ nodes (Directed D) ->
       nx_ancestors h' G source = Raise NetworkXError /\
       nx_descendants h' G source = Raise NetworkXError).
Proof.
  intros Hrun.
  destruct (constructed_directed _ _ _ _ _ _ _ _ _ _ Hrun)
    as (l & D & Hcall & Hl & Hwf & _ & Hedges).
  exists (VGraph l), D. split; [done|]. split; [done|]. intros source. split.
  - intros Hs.
    destruct (nx_ancestors_present h' l D Hl Hwf source Hs) as (A & HA & HspecA).
    destruct (nx_descendants_present h' l D Hl Hwf source Hs) as (Ds & HD & HspecD).
    eauto 10.
  - intros Hs. by apply (nx_ancestors_absent h' l D Hl).
Qed.




(** Children and parents (the content of C3 and C5), on the called
    accessor: [v] is a successor of [u] exactly when [u] is a predecessor
    of [v], exactly when [(u, v)] is a directed edge; bidirected and
    undirected edges play no part; a node outside the directed sub-graph
    raises NetworkXError. *)
Lemma called_children_parents h dd db du dn bn un at_ self h' :
  ADMG.__init__ dd db du dn bn un at_ h = Ok (self, h') ->
  exists G D,
    ADMG.call (attr self "sub_directed_graph") = Ok G /\
    ADMG.directed_edges h' self = Ok (edges (Directed D)) /\
    (forall u v,
       (u, v) ∈ edges (Directed D) <->
       (exists S, successors h' G u = Ok S /\ v ∈ S) /\
       (exists P, predecessors h' G v = Ok P /\ u ∈ P)) /\
    (forall n, n ∉ nodes (Directed D) ->
       successors h' G n = Raise NetworkXError /\
       predecessors h' G n = Raise NetworkXError).
Proof.
  intros Hrun.
  destruct (constructed_directed _ _ _ _ _ _ _ _ _ _ Hrun)
    as (l & D & Hcall & Hl & Hwf & _ & Hedges).
  exists (VGraph l), D. split; [done|]. split; [done|]. split.
  - intros u v. by apply successors_predecessors_edges.
  - intros n Hn. by apply (successors_absent h' l D Hl Hwf).
Qed.

(** Confounded components (the content of C4), on the called accessor. *)
Lemma called_c_components h dd db du dn bn un at_ self h' :
  ADMG.__init__ dd db du dn bn un at_ h = Ok (self, h') ->
  exists G B out,
    ADMG.call (attr self "sub_bidirected_graph") = Ok G /\
    ADMG.bidirected_edges h' self = Ok (edges (Undirected B)) /\
    connected_components h' G = Ok out /\
    (forall c, c ∈ out ->
       exists v, v ∈ nodes (Undirected B) /\ forall x, x ∈ c <-> connected B v x) /\
    (forall v, v ∈ nodes (Undirected B) -> exists c, c ∈ out /\ v ∈ c) /\
    ForallOrdPairs (fun c c' : gset node => c ## c') out /\
    ⋃ out = nodes (Undirected B).
Proof.
  intros Hrun.
  destruct (constructed_bidirected _ _ _ _ _ _ _ _ _ _ Hrun)
    as (l & B & Hcall & Hl & Hwf & Hedges).
  exists (VGraph l), B, (connected_components_obj B).
  split; [done|]. split; [done|]. split.
  { unfold connected_components, deref. by rewrite Hl. }
  apply (connected_components_obj_spec B Hwf).
Qed.

(** * Further properties of construction and of the accessors *)

(** The three edge views of a constructed ADMG are the edges of the graphs
    built from the three inputs; a live input converts the same way on the
    caller's heap. *)
Lemma constructed_edges h dd db du dn bn un at_ self h' :
  ADMG.__init__ dd db du dn bn un at_ h = Ok (self, h') ->
  exists nd ed nb eb nu eu,
    to_networkx_graph h dd = Ok (nd, ed) /\
    (data_ok h db -> to_networkx_graph h db = Ok (nb, eb)) /\
    (data_ok h du -> to_networkx_graph h du = Ok (nu, eu)) /\
    (forall es, db = DataEdges es -> eb = es) /\
    (forall es, du = DataEdges es -> eu = es) /\
    has_cycle (build_DiGraph nd ed) = false /\
    ADMG.directed_edges h' self = Ok (edges (Directed (build_DiGraph nd ed))) /\
    ADMG.bidirected_edges h' self = Ok (edges (Undirected (build_Graph nb eb))) /\
    ADMG.undirected_edges h' self = Ok (edges (Undirected (build_Graph nu eu))).
Proof.
  intros Hrun. construction Hrun.
  exists nd, ed, nb, eb, nu, eu. split; [done|].
  assert (forall V (m : gmap loc V), m !! fresh (dom m) = None) as Hfresh.
  { intros V m. apply not_elem_of_dom, is_fresh. }
  split; [|split; [|split; [|split; [|split; [done|]]]]].
  - intros Hok. by rewrite <- Hcb, to_networkx_graph_alloc.
  - intros Hok. rewrite <- Hcu.
    rewrite to_networkx_graph_alloc; [|by apply data_ok_alloc|by apply Hfresh].
    by rewrite to_networkx_graph_alloc.
  - intros es ->. simpl in Hcb. by injection Hcb as <- <-.
  - intros es ->. simpl in Hcu. by injection Hcu as <- <-.
  - split; [by apply Hed|]. split; [by apply Heb|by apply Heu].
Qed.

Lemma edges_build_DiGraph ns es :
  edges (Directed (build_DiGraph ns es)) = list_to_set es.
Proof.
  apply set_eq. intros [u v]. rewrite elem_of_edges, elem_of_list_to_set. simpl.
  apply elem_of_build_DiGraph_succ.
Qed.

Lemma elem_of_dict_of_lists_edges (d : list (node * list node)) (u v : node) :
  (u, v) ∈ ('(x, vs) ← d; pair x <$> vs) <-> exists vs, (u, vs) ∈ d /\ v ∈ vs.
Proof.
  rewrite list_elem_of_bind. split.
  - intros [[x vs] [Hin Hd]]. apply list_elem_of_fmap in Hin as [w [[= -> ->] Hw]]. eauto.
  - intros [vs [Hd Hv]]. exists (u, vs). split; [|done].
    apply list_elem_of_fmap. eauto.
Qed.

(** X1: the directed edge view gives back the directed input.  For an edge
    list it is the set of the listed edges (order and repetitions are
    forgotten); for a dict of lists it is the pairs [(u, v)] with [v] in the
    list of [u]. *)
Theorem directed_edges_round_trip h dd db du dn bn un at_ self h' :
  ADMG.__init__ dd db du dn bn un at_ h = Ok (self, h') ->
  exists Ed : gset (node * node),
    ADMG.directed_edges h' self = Ok Ed /\
    (forall es, dd = DataEdges es -> Ed = list_to_set es) /\
    (forall d, dd = DataDictOfLists d ->
       forall u v, (u, v) ∈ Ed <-> exists vs, (u, vs) ∈ d /\ v ∈ vs).
Proof.
  intros Hrun.
  destruct (constructed_edges _ _ _ _ _ _ _ _ _ _ Hrun)
    as (nd & ed & nb & eb & nu & eu & Hcd & _ & _ & _ & _ & _ & Hed & _).
  eexists. split; [exact Hed|]. rewrite edges_build_DiGraph. split.
  - intros es ->. simpl in Hcd. by injection Hcd as <- <-.
  - intros d -> u v. simpl in Hcd. injection Hcd as <- <-.
    rewrite elem_of_list_to_set. apply elem_of_dict_of_lists_edges.
Qed.

Lemma directed_edges_round_trip_witness :
  exists self h',
    ADMG.__init__ (DataEdges [(1, 2); (2, 3); (1, 2)]) (DataEdges [(1, 3)]) DataNone
      "directed" "bidirected" "undirected" ∅ ∅ = Ok (self, h') /\
    exists Ed : gset (node * node),
      ADMG.directed_edges h' self = Ok Ed /\
      (forall es, DataEdges [(1, 2); (2, 3); (1, 2)] = DataEdges es ->
         Ed = list_to_set es) /\
      (forall d, DataEdges [(1, 2); (2, 3); (1, 2)] = DataDictOfLists d ->
         forall u v, (u, v) ∈ Ed <-> exists vs, (u, vs) ∈ d /\ v ∈ vs).
Proof.
  eexists _, _. split; [reflexivity|].
  apply (directed_edges_round_trip ∅ (DataEdges [(1, 2); (2, 3); (1, 2)])
           (DataEdges [(1, 3)]) DataNone "directed" "bidirected" "undirected" ∅).
  reflexivity.
Defined.

(** X2: each edge view depends on the input of its own role only.  Two
    constructions on one heap that agree on a role's input agree on that
    role's edge view, whatever the two other inputs, the role names and the
    attributes are. *)
Theorem edge_views_depend_on_own_input
    h dd db du dn bn un at_ self h' dd' db' du' dn' bn' un' at_' self' h'' :
  ADMG.__init__ dd db du dn bn un at_ h = Ok (self, h') ->
  ADMG.__init__ dd' db' du' dn' bn' un' at_' h = Ok (self', h'') ->
  data_ok h db -> data_ok h du ->
  (dd = dd' -> ADMG.directed_edges h' self = ADMG.directed_edges h'' self') /\
  (db = db' -> ADMG.bidirected_edges h' self = ADMG.bidirected_edges h'' self') /\
  (du = du' -> ADMG.undirected_edges h' self = ADMG.undirected_edges h'' self').
Proof.
  intros Hrun Hrun' Hokb Hoku.
  destruct (constructed_edges _ _ _ _ _ _ _ _ _ _ Hrun)
    as (nd & ed & nb & eb & nu & eu & Hcd & Hcb & Hcu & _ & _ & _ & Hed & Heb & Heu).
  destruct (constructed_edges _ _ _ _ _ _ _ _ _ _ Hrun')
    as (nd' & ed' & nb' & eb' & nu' & eu' & Hcd' & Hcb' & Hcu' & _ & _ & _
        & Hed' & Heb' & Heu').
  rewrite Hed, Hed', Heb, Heb', Heu, Heu'. repeat split.
  - intros <-. rewrite Hcd in Hcd'. by injection Hcd' as <- <-.
  - intros <-. specialize (Hcb Hokb). specialize (Hcb' Hokb).
    rewrite Hcb in Hcb'. by injection Hcb' as <- <-.
  - intros <-. specialize (Hcu Hoku). specialize (Hcu' Hoku).
    rewrite Hcu in Hcu'. by injection Hcu' as <- <-.
Qed.

Lemma edge_views_depend_on_own_input_witness :
  exists self h' self' h'',
    ADMG.__init__ (DataEdges [(1, 2)]) (DataEdges [(1, 3)]) DataNone
      "directed" "bidirected" "undirected" ∅ ∅ = Ok (self, h') /\
    ADMG.__init__ (DataEdges [(1, 2)]) (DataEdges [(4, 5); (5, 5)]) (DataEdges [(2, 6)])
      "causal" "confounded" "selection" ∅ ∅ = Ok (self', h'') /\
    ((DataEdges [(1, 2)] = DataEdges [(1, 2)] ->
      ADMG.directed_edges h' self = ADMG.directed_edges h'' self') /\
     (DataEdges [(1, 3)] = DataEdges [(4, 5); (5, 5)] ->
      ADMG.bidirected_edges h' self = ADMG.bidirected_edges h'' self') /\
     (DataNone = DataEdges [(2, 6)] ->
      ADMG.undirected_edges h' self = ADMG.undirected_edges h'' self')).
Proof.
  eexists _, _, _, _. split; [reflexivity|]. split; [reflexivity|].
  apply (edge_views_depend_on_own_input ∅
           (DataEdges [(1, 2)]) (DataEdges [(1, 3)]) DataNone
           "directed" "bidirected" "undirected" ∅ _ _
           (DataEdges [(1, 2)]) (DataEdges [(4, 5); (5, 5)]) (DataEdges [(2, 6)])
           "causal" "confounded" "selection" ∅ _ _);
    [reflexivity | reflexivity | exact I | exact I].
Defined.

(** A cycle is a matter of the edge relation alone. *)
Lemma contains_cycle_ext D D' :
  (forall u v, edge D u v <-> edge D' u v) -> contains_cycle D -> contains_cycle D'.
Proof.
  intros Hsame [n Hn]. exists n. eapply tc_mono; [|exact Hn].
  intros a b. apply Hsame.
Qed.

Lemma edge_build_DiGraph ns es u v : edge (build_DiGraph ns es) u v <-> (u, v) ∈ es.
Proof. apply elem_of_build_DiGraph_succ. Qed.

(** X3: the directed edges of a constructed ADMG have no self-loop and no
    edge together with its reverse. *)
Theorem directed_edges_asymmetric h dd db du dn bn un at_ self h' :
  ADMG.__init__ dd db du dn bn un at_ h = Ok (self, h') ->
  exists Ed : gset (node * node),
    ADMG.directed_edges h' self = Ok Ed /\
    (forall u, (u, u) ∉ Ed) /\
    (forall u v, (u, v) ∈ Ed -> (v, u) ∉ Ed).
Proof.
  intros Hrun.
  destruct (constructed_directed _ _ _ _ _ _ _ _ _ _ Hrun)
    as (l & D & _ & _ & _ & Hacyc & Hed).
  eexists. split; [exact Hed|]. split.
  - intros u Hu. apply elem_of_edges in Hu. apply Hacyc. exists u. by apply tc_once.
  - intros u v Huv Hvu. apply elem_of_edges in Huv, Hvu. apply Hacyc. exists u.
    apply tc_l with v; [done|]. by apply tc_once.
Qed.

Lemma directed_edges_asymmetric_witness :
  exists self h',
    ADMG.__init__ (DataEdges [(1, 2); (2, 3); (1, 3)]) (DataEdges [(3, 1); (2, 2)]) DataNone
      "directed" "bidirected" "undirected" ∅ ∅ = Ok (self, h') /\
    exists Ed : gset (node * node),
      ADMG.directed_edges h' self = Ok Ed /\
      (forall u, (u, u) ∉ Ed) /\
      (forall u v, (u, v) ∈ Ed -> (v, u) ∉ Ed).
Proof.
  eexists _, _. split; [reflexivity|].
  apply (directed_edges_asymmetric ∅ (DataEdges [(1, 2); (2, 3); (1, 3)])
           (DataEdges [(3, 1); (2, 2)]) DataNone "directed" "bidirected" "undirected" ∅).
  reflexivity.
Defined.

(** X4: a directed edge list that holds an edge together with its reverse
    (a self-loop is its own reverse) is refused with RuntimeError, whatever
    else the three inputs hold. *)
Theorem init_refuses_two_cycle h es db du dn bn un at_ u v :
  data_ok h db -> data_ok h du ->
  dn ≠ bn -> dn ≠ un -> bn ≠ un ->
  (u, v) ∈ es -> (v, u) ∈ es ->
  ADMG.__init__ (DataEdges es) db du dn bn un at_ h = Raise RuntimeError.
Proof.
  intros Hb Hu Hdb Hdu Hbu Huv Hvu.
  destruct (init_run_ok (DataEdges es) db du dn bn un at_ h I Hb Hu Hdb Hdu Hbu)
    as (nd & ed & nb & eb & nu & eu & Hcd & _ & _ & ->).
  simpl in Hcd. injection Hcd as <- <-.
  assert (has_cycle (build_DiGraph [] es) = true) as ->; [|done].
  apply has_cycle_spec; [apply build_DiGraph_well_formed|].
  exists u. apply tc_l with v; [by apply edge_build_DiGraph|].
  apply tc_once. by apply edge_build_DiGraph.
Qed.

Lemma init_refuses_two_cycle_witness :
  ADMG.__init__ (DataEdges [(1, 2); (2, 3); (3, 3)]) (DataEdges [(1, 3)]) DataNone
    "directed" "bidirected" "undirected" ∅ ∅ = Raise RuntimeError.
Proof.
  apply (init_refuses_two_cycle ∅ [(1, 2); (2, 3); (3, 3)] (DataEdges [(1, 3)]) DataNone
           "directed" "bidirected" "undirected" ∅ 3 3);
    [exact I | exact I | done | done | done | | ]; set_solver.
Defined.

(** X5: an undirected graph object given as the directed input is turned
    into a DiGraph with every edge in both orientations, so construction
    raises RuntimeError exactly when that graph has an edge, and succeeds
    when it has none. *)
Theorem init_from_undirected_graph h l0 G0 db du dn bn un at_ :
  h !! l0 = Some (Undirected G0) -> well_formed_undirected G0 ->
  data_ok h db -> data_ok h du ->
  dn ≠ bn -> dn ≠ un -> bn ≠ un ->
  (ADMG.__init__ (DataGraph l0) db du dn bn un at_ h = Raise RuntimeError
   <-> edges (Undirected G0) ≠ ∅) /\
  (edges (Undirected G0) = ∅ ->
   returns (ADMG.__init__ (DataGraph l0) db du dn bn un at_ h)).
Proof.
  intros Hl0 Hwf Hb Hu Hdb Hdu Hbu.
  assert (data_ok h (DataGraph l0)) as Hd by (simpl; eauto).
  destruct (init_run_ok (DataGraph l0) db du dn bn un at_ h Hd Hb Hu Hdb Hdu Hbu)
    as (nd & ed & nb & eb & nu & eu & Hcd & _ & _ & ->).
  simpl in Hcd. unfold deref in Hcd. rewrite Hl0 in Hcd. injection Hcd as <- <-.
  set (D := build_DiGraph _ _).
  assert (forall a b, edge D a b <-> (a, b) ∈ edges (Undirected G0)) as Hedge.
  { intros a b. unfold D. rewrite edge_build_DiGraph, elem_of_adj_edge_list.
    by rewrite elem_of_edges. }
  pose proof (has_cycle_spec D (build_DiGraph_well_formed _ _)) as Hspec.
  destruct (decide (edges (Undirected G0) = ∅)) as [Hempty|Hedges].
  - assert (has_cycle D = false) as ->.
    { destruct (has_cycle D); [|done]. destruct Hspec as [[n Hn] _]; [done|].
      apply tc_nsteps in Hn as (k & Hk & Hn).
      destruct Hn as [|k a b c Hab _]; [lia|].
      apply Hedge in Hab. rewrite Hempty in Hab. set_solver. }
    split; [split; [done|by intros ?]|]. intros _. by eexists.
  - assert (has_cycle D = true) as ->.
    { apply Hspec. apply set_choose_L in Hedges as [[a b] Hab].
      exists a. apply tc_l with b; [by apply Hedge|]. apply tc_once, Hedge.
      apply elem_of_edges. apply elem_of_edges in Hab. simpl in *.
      by apply (wfu_sym G0 Hwf). }
    split; [done|]. intros Hempty. done.
Qed.

Lemma init_from_undirected_graph_witness :
  (ADMG.__init__ (DataGraph 1%positive) DataNone DataNone
     "directed" "bidirected" "undirected" ∅
     ({[ 1%positive := Undirected (build_Graph [] [(1, 2)]) ]} : heap)
   = Raise RuntimeError
   <-> edges (Undirected (build_Graph [] [(1, 2)])) ≠ ∅) /\
  (edges (Undirected (build_Graph [] [(1, 2)])) = ∅ ->
   returns (ADMG.__init__ (DataGraph 1%positive) DataNone DataNone
              "directed" "bidirected" "undirected" ∅
              ({[ 1%positive := Undirected (build_Graph [] [(1, 2)]) ]} : heap))).
Proof.
  apply (init_from_undirected_graph
           {[ 1%positive := Undirected (build_Graph [] [(1, 2)]) ]}
           1%positive (build_Graph [] [(1, 2)]) DataNone DataNone
           "directed" "bidirected" "undirected" ∅);
    [reflexivity | apply build_Graph_well_formed | exact I | exact I
    | done | done | done].
Defined.

Lemma dom_three_inserts (h : heap) (l1 l2 l3 : loc) (g1 g2 g3 : graph) :
  h !! l1 = None -> h !! l2 = None -> h !! l3 = None ->
  l1 ≠ l2 -> l1 ≠ l3 -> l2 ≠ l3 ->
  dom (<[l3 := g3]> (<[l2 := g2]> (<[l1 := g1]> h))) = {[l1; l2; l3]} ∪ dom h /\
  size (dom (<[l3 := g3]> (<[l2 := g2]> (<[l1 := g1]> h)))) = (3 + size (dom h))%nat.
Proof.
  intros H1 H2 H3 H12 H13 H23. apply not_elem_of_dom in H1, H2, H3.
  assert (dom (<[l3 := g3]> (<[l2 := g2]> (<[l1 := g1]> h))) = {[l1; l2; l3]} ∪ dom h)
    as ->.
  { rewrite !dom_insert_L. set_solver. }
  split; [done|].
  rewrite size_union by set_solver.
  rewrite !size_union by set_solver. rewrite !size_singleton. lia.
Qed.

(** X6: construction changes no object that was on the heap and adds
    exactly three: the sub-graphs of the three roles, which are three
    different objects even when one graph is given for several roles. *)
Theorem init_allocates_three h dd db du dn bn un at_ self h' :
  ADMG.__init__ dd db du dn bn un at_ h = Ok (self, h') ->
  (forall l, is_Some (h !! l) -> h' !! l = h !! l) /\
  exists ld lb lu,
    ADMG.sub_directed_graph self = Ok (VGraph ld) /\
    ADMG.sub_bidirected_graph self = Ok (VGraph lb) /\
    ADMG.sub_undirected_graph self = Ok (VGraph lu) /\
    ld ≠ lb /\ ld ≠ lu /\ lb ≠ lu /\
    dom h' = {[ld; lb; lu]} ∪ dom h /\
    size (dom h') = (3 + size (dom h))%nat.
Proof.
  intros Hrun. construction Hrun. split; [exact Hold|].
  eexists _, _, _. split; [exact Hsub1|]. split; [exact Hsub2|]. split; [exact Hsub3|].
  split; [exact Hl12|]. split; [exact Hl13|]. split; [exact Hl23|].
  by apply dom_three_inserts.
Qed.

Lemma init_allocates_three_witness :
  exists self h',
    ADMG.__init__ (DataGraph 1%positive) (DataGraph 1%positive) (DataGraph 1%positive)
      "directed" "bidirected" "undirected" ∅
      ({[ 1%positive := Directed (build_DiGraph [] [(1, 2)]) ]} : heap)
    = Ok (self, h') /\
    ((forall l,
        is_Some (({[ 1%positive := Directed (build_DiGraph [] [(1, 2)]) ]} : heap) !! l) ->
        h' !! l = ({[ 1%positive := Directed (build_DiGraph [] [(1, 2)]) ]} : heap) !! l) /\
     exists ld lb lu,
       ADMG.sub_directed_graph self = Ok (VGraph ld) /\
       ADMG.sub_bidirected_graph self = Ok (VGraph lb) /\
       ADMG.sub_undirected_graph self = Ok (VGraph lu) /\
       ld ≠ lb /\ ld ≠ lu /\ lb ≠ lu /\
       dom h' = {[ld; lb; lu]}
                ∪ dom ({[ 1%positive := Directed (build_DiGraph [] [(1, 2)]) ]} : heap) /\
       size (dom h')
       = Nat.add 3
           (size (dom ({[ 1%positive := Directed (build_DiGraph [] [(1, 2)]) ]} : heap)))).
Proof.
  eexists _, _. split; [reflexivity|].
  apply (init_allocates_three {[ 1%positive := Directed (build_DiGraph [] [(1, 2)]) ]}
           (DataGraph 1%positive) (DataGraph 1%positive) (DataGraph 1%positive)
           "directed" "bidirected" "undirected" ∅).
  reflexivity.
Defined.

(** An edge accessor returns the edges of whatever object its role's
    accessor refers to. *)
Lemma edges_through_accessor (hx : heap) self l g :
  hx !! l = Some g ->
  (ADMG.sub_directed_graph self = Ok (VGraph l) ->
   ADMG.directed_edges hx self = Ok (edges g)) /\
  (ADMG.sub_bidirected_graph self = Ok (VGraph l) ->
   ADMG.bidirected_edges hx self = Ok (edges g)) /\
  (ADMG.sub_undirected_graph self = Ok (VGraph l) ->
   ADMG.undirected_edges hx self = Ok (edges g)).
Proof.
  intros Hl.
  unfold ADMG.sub_directed_graph, ADMG.sub_bidirected_graph, ADMG.sub_undirected_graph,
    ADMG.directed_edges, ADMG.bidirected_edges, ADMG.undirected_edges,
    MixedEdgeGraph._get_internal_graph, edges_of, deref.
  repeat split.
  - destruct (MixedEdgeGraph.get_graphs (_directed_name self) (base self)) as [l'|];
      [|done]. intros [= ->]. cbn [mbind result_bind Py.bind]. by rewrite Hl.
  - destruct (MixedEdgeGraph.get_graphs (_bidirected_name self) (base self)) as [l'|];
      [|done]. intros [= ->]. cbn [mbind result_bind Py.bind]. by rewrite Hl.
  - destruct (MixedEdgeGraph.get_graphs (_undirected_name self) (base self)) as [l'|];
      [|done]. intros [= ->]. cbn [mbind result_bind Py.bind]. by rewrite Hl.
Qed.

(** X7: the edge accessors read the live registered object and check
    nothing: when the object behind a role is later changed into any graph
    [g'], a cyclic one included, the accessor of that role returns the edges
    of [g'], and the two other views stay as they were. *)
Theorem edge_views_are_live h dd db du dn bn un at_ self h' :
  ADMG.__init__ dd db du dn bn un at_ h = Ok (self, h') ->
  exists ld lb lu,
    ADMG.sub_directed_graph self = Ok (VGraph ld) /\
    ADMG.sub_bidirected_graph self = Ok (VGraph lb) /\
    ADMG.sub_undirected_graph self = Ok (VGraph lu) /\
    (forall g',
       ADMG.directed_edges (<[ld := g']> h') self = Ok (edges g') /\
       ADMG.bidirected_edges (<[ld := g']> h') self = ADMG.bidirected_edges h' self /\
       ADMG.undirected_edges (<[ld := g']> h') self = ADMG.undirected_edges h' self) /\
    (forall g',
       ADMG.bidirected_edges (<[lb := g']> h') self = Ok (edges g') /\
       ADMG.directed_edges (<[lb := g']> h') self = ADMG.directed_edges h' self /\
       ADMG.undirected_edges (<[lb := g']> h') self = ADMG.undirected_edges h' self) /\
    (forall g',
       ADMG.undirected_edges (<[lu := g']> h') self = Ok (edges g') /\
       ADMG.directed_edges (<[lu := g']> h') self = ADMG.directed_edges h' self /\
       ADMG.bidirected_edges (<[lu := g']> h') self = ADMG.bidirected_edges h' self).
Proof.
  intros Hrun. construction Hrun.
  eexists _, _, _. split; [exact Hsub1|]. split; [exact Hsub2|]. split; [exact Hsub3|].
  split; [|split]; intros g'.
  - split; [by apply (edges_through_accessor _ _ _ g' (lookup_insert_eq _ _ _))|].
    rewrite (Heb _ Hl2), (Heu _ Hl3). split.
    + apply Heb. by rewrite lookup_insert_ne.
    + apply Heu. by rewrite lookup_insert_ne.
  - split; [by apply (edges_through_accessor _ _ _ g' (lookup_insert_eq _ _ _))|].
    rewrite (Hed _ Hl1), (Heu _ Hl3). split.
    + apply Hed. by rewrite lookup_insert_ne.
    + apply Heu. by rewrite lookup_insert_ne.
  - split; [by apply (edges_through_accessor _ _ _ g' (lookup_insert_eq _ _ _))|].
    rewrite (Hed _ Hl1), (Heb _ Hl2). split.
    + apply Hed. by rewrite lookup_insert_ne.
    + apply Heb. by rewrite lookup_insert_ne.
Qed.

Lemma edge_views_are_live_witness :
  exists self h',
    ADMG.__init__ (DataEdges [(1, 2)]) (DataEdges [(1, 3)]) DataNone
      "directed" "bidirected" "undirected" ∅ ∅ = Ok (self, h') /\
    exists ld lb lu,
      ADMG.sub_directed_graph self = Ok (VGraph ld) /\
      ADMG.sub_bidirected_graph self = Ok (VGraph lb) /\
      ADMG.sub_undirected_graph self = Ok (VGraph lu) /\
      (forall g',
         ADMG.directed_edges (<[ld := g']> h') self = Ok (edges g') /\
         ADMG.bidirected_edges (<[ld := g']> h') self = ADMG.bidirected_edges h' self /\
         ADMG.undirected_edges (<[ld := g']> h') self = ADMG.undirected_edges h' self) /\
      (forall g',
         ADMG.bidirected_edges (<[lb := g']> h') self = Ok (edges g') /\
         ADMG.directed_edges (<[lb := g']> h') self = ADMG.directed_edges h' self /\
         ADMG.undirected_edges (<[lb := g']> h') self = ADMG.undirected_edges h' self) /\
      (forall g',
         ADMG.undirected_edges (<[lu := g']> h') self = Ok (edges g') /\
         ADMG.directed_edges (<[lu := g']> h') self = ADMG.directed_edges h' self /\
         ADMG.bidirected_edges (<[lu := g']> h') self = ADMG.bidirected_edges h' self).
Proof.
  eexists _, _. split; [reflexivity|].
  apply (edge_views_are_live ∅ (DataEdges [(1, 2)]) (DataEdges [(1, 3)]) DataNone
           "directed" "bidirected" "undirected" ∅).
  reflexivity.
Defined.

(** The objects behind the three accessors of a constructed ADMG. *)
Lemma constructed_objects h dd db du dn bn un at_ self h' :
  ADMG.__init__ dd db du dn bn un at_ h = Ok (self, h') ->
  exists ld lb lu D Gb Gu,
    (ADMG.sub_directed_graph self = Ok (VGraph ld) /\
     ADMG.sub_bidirected_graph self = Ok (VGraph lb) /\
     ADMG.sub_undirected_graph self = Ok (VGraph lu)) /\
    (h' !! ld = Some (Directed D) /\
     h' !! lb = Some (Undirected Gb) /\
     h' !! lu = Some (Undirected Gu)) /\
    (well_formed D /\ ~ contains_cycle D /\
     well_formed_undirected Gb /\ well_formed_undirected Gu).
Proof.
  intros Hrun. construction Hrun.
  eexists _, _, _, _, _, _. split; [done|]. split; [done|].
  split; [apply build_DiGraph_well_formed|].
  split; [by apply has_cycle_false; [apply build_DiGraph_well_formed|]|].
  split; apply build_Graph_well_formed.
Qed.

(** A DiGraph built from a DiGraph has the same edges. *)
Lemma edges_copy_DiGraph D :
  edges (Directed (build_DiGraph (map_to_list (DiGraph._succ D)).*1
                     (adj_edge_list (DiGraph._succ D))))
  = edges (Directed D).
Proof.
  apply set_eq. intros [u v]. rewrite !elem_of_edges. simpl.
  by rewrite elem_of_build_DiGraph_succ, elem_of_adj_edge_list.
Qed.

(** A Graph built from a Graph has the same edges. *)
Lemma edges_copy_Graph G :
  well_formed_undirected G ->
  edges (Undirected (build_Graph (map_to_list (Graph._adj G)).*1
                       (adj_edge_list (Graph._adj G))))
  = edges (Undirected G).
Proof.
  intros Hwf. apply set_eq. intros [u v]. rewrite !elem_of_edges. simpl.
  rewrite elem_of_build_Graph, !elem_of_adj_edge_list.
  pose proof (wfu_sym G Hwf u v). tauto.
Qed.

(** X8: an ADMG can be rebuilt from its own sub-graphs.  Giving the three
    objects returned by the accessors of a constructed ADMG as the three
    inputs of a new construction, under any three different role names,
    succeeds, and the new ADMG has the same three edge views, held in
    objects of its own; the first ADMG keeps its views. *)
Theorem init_from_own_sub_graphs
    h dd db du dn bn un at_ self h' ld lb lu dn' bn' un' at_' :
  ADMG.__init__ dd db du dn bn un at_ h = Ok (self, h') ->
  ADMG.sub_directed_graph self = Ok (VGraph ld) ->
  ADMG.sub_bidirected_graph self = Ok (VGraph lb) ->
  ADMG.sub_undirected_graph self = Ok (VGraph lu) ->
  dn' ≠ bn' -> dn' ≠ un' -> bn' ≠ un' ->
  exists self2 h2,
    ADMG.__init__ (DataGraph ld) (DataGraph lb) (DataGraph lu) dn' bn' un' at_' h'
      = Ok (self2, h2) /\
    (ADMG.directed_edges h2 self2 = ADMG.directed_edges h' self /\
     ADMG.bidirected_edges h2 self2 = ADMG.bidirected_edges h' self /\
     ADMG.undirected_edges h2 self2 = ADMG.undirected_edges h' self) /\
    (ADMG.directed_edges h2 self = ADMG.directed_edges h' self /\
     ADMG.bidirected_edges h2 self = ADMG.bidirected_edges h' self /\
     ADMG.undirected_edges h2 self = ADMG.undirected_edges h' self) /\
    (ADMG.sub_directed_graph self2 ≠ Ok (VGraph ld) /\
     ADMG.sub_bidirected_graph self2 ≠ Ok (VGraph lb) /\
     ADMG.sub_undirected_graph self2 ≠ Ok (VGraph lu)).
Proof.
  intros Hrun Hsd Hsb Hsu Hdb' Hdu' Hbu'.
  destruct (constructed_objects _ _ _ _ _ _ _ _ _ _ Hrun)
    as (ld0 & lb0 & lu0 & D & Gb & Gu & (Hsd0 & Hsb0 & Hsu0) & (Hld & Hlb & Hlu)
        & Hwf & Hacyc & Hwfb & Hwfu).
  assert (ld0 = ld) as -> by congruence. assert (lb0 = lb) as -> by congruence.
  assert (lu0 = lu) as -> by congruence. clear Hsd0 Hsb0 Hsu0 Hrun.
  destruct (init_run_ok (DataGraph ld) (DataGraph lb) (DataGraph lu) dn' bn' un' at_' h')
    as (nd & ed & nb & eb & nu & eu & Hcd & Hcb & Hcu & Hinit); simpl; eauto.
  simpl in Hcd, Hcb, Hcu. unfold deref in Hcd, Hcb, Hcu.
  rewrite Hld in Hcd. rewrite Hlb in Hcb. rewrite Hlu in Hcu.
  injection Hcd as <- <-. injection Hcb as <- <-. injection Hcu as <- <-.
  simpl in Hinit.
  set (D' := build_DiGraph _ _) in *. set (Gb' := build_Graph _ _) in *.
  set (Gu' := build_Graph (map_to_list (Graph._adj Gu)).*1 _) in *.
  assert (has_cycle D' = false) as Hcyc.
  { apply has_cycle_false; [apply build_DiGraph_well_formed|].
    intros Hc. apply Hacyc. eapply contains_cycle_ext; [|exact Hc].
    intros u v. unfold D'. by rewrite edge_build_DiGraph, elem_of_adj_edge_list. }
  rewrite Hcyc in Hinit.
  destruct (views h' (Directed D') (Undirected Gb') (Undirected Gu') dn' bn' un' at_'
              Hdb' Hdu' Hbu') as ((Hsd' & Hsb' & Hsu') & Hed' & Heb' & Heu').
  destruct (fresh_layout h' (Directed D') (Undirected Gb') (Undirected Gu'))
    as (_ & _ & _ & Hn1 & Hn2 & Hn3 & Hl1 & Hl2 & Hl3 & Hold).
  eexists _, _. split; [exact Hinit|].
  destruct (edges_through_accessor h' self ld (Directed D) Hld) as (Hvd & _ & _).
  destruct (edges_through_accessor h' self lb (Undirected Gb) Hlb) as (_ & Hvb & _).
  destruct (edges_through_accessor h' self lu (Undirected Gu) Hlu) as (_ & _ & Hvu).
  rewrite (Hvd Hsd), (Hvb Hsb), (Hvu Hsu).
  split; [|split].
  - rewrite (Hed' _ Hl1), (Heb' _ Hl2), (Heu' _ Hl3).
    unfold D', Gb', Gu'.
    by rewrite edges_copy_DiGraph, !edges_copy_Graph.
  - split; [|split].
    + eapply edges_through_accessor; [|exact Hsd]. rewrite Hold; eauto.
    + eapply edges_through_accessor; [|exact Hsb]. rewrite Hold; eauto.
    + eapply edges_through_accessor; [|exact Hsu]. rewrite Hold; eauto.
  - rewrite Hsd', Hsb', Hsu'. repeat split; intros [= Heq]; congruence.
Qed.

Lemma init_from_own_sub_graphs_witness :
  exists self h' ld lb lu,
    ADMG.__init__ (DataEdges [(1, 2); (2, 3)]) (DataEdges [(1, 3); (4, 4)]) DataNone
      "directed" "bidirected" "undirected" ∅ ∅ = Ok (self, h') /\
    ADMG.sub_directed_graph self = Ok (VGraph ld) /\
    ADMG.sub_bidirected_graph self = Ok (VGraph lb) /\
    ADMG.sub_undirected_graph self = Ok (VGraph lu) /\
    exists self2 h2,
      ADMG.__init__ (DataGraph ld) (DataGraph lb) (DataGraph lu)
        "causal" "confounded" "selection" ∅ h' = Ok (self2, h2) /\
      (ADMG.directed_edges h2 self2 = ADMG.directed_edges h' self /\
       ADMG.bidirected_edges h2 self2 = ADMG.bidirected_edges h' self /\
       ADMG.undirected_edges h2 self2 = ADMG.undirected_edges h' self) /\
      (ADMG.directed_edges h2 self = ADMG.directed_edges h' self /\
       ADMG.bidirected_edges h2 self = ADMG.bidirected_edges h' self /\
       ADMG.undirected_edges h2 self = ADMG.undirected_edges h' self) /\
      (ADMG.sub_directed_graph self2 ≠ Ok (VGraph ld) /\
       ADMG.sub_bidirected_graph self2 ≠ Ok (VGraph lb) /\
       ADMG.sub_undirected_graph self2 ≠ Ok (VGraph lu)).
Proof.
  eexists _, _, _, _, _. split; [reflexivity|].
  split; [reflexivity|]. split; [reflexivity|]. split; [reflexivity|].
  apply (init_from_own_sub_graphs ∅
           (DataEdges [(1, 2); (2, 3)]) (DataEdges [(1, 3); (4, 4)]) DataNone
           "directed" "bidirected" "undirected" ∅ _ _ _ _ _
           "causal" "confounded" "selection" ∅);
    [reflexivity | reflexivity | reflexivity | reflexivity | done | done | done].
Defined.

(** X9: the role names are registered before the directed sub-graph is
    checked.  When two of the three names are equal, construction on live
    inputs raises DuplicateEdgeTypeError whatever the edges are, a directed
    cycle included; RuntimeError is never reached. *)
Theorem init_name_clash_precedes_check h dd db du dn bn un at_ :
  data_ok h dd -> data_ok h db -> data_ok h du ->
  dn = bn \/ dn = un \/ bn = un ->
  ADMG.__init__ dd db du dn bn un at_ h = Raise DuplicateEdgeTypeError.
Proof.
  intros Hd Hb Hu Hclash.
  destruct (decide (dn = bn)) as [<-|Hdb]; [by apply init_duplicate|].
  destruct (to_networkx_graph_ok h dd Hd) as (nd & ed & Hcd).
  destruct (to_networkx_graph_ok h db Hb) as (nb & eb & Hcb).
  destruct (to_networkx_graph_ok h du Hu) as (nu & eu & Hcu).
  assert (forall V (m : gmap loc V), m !! fresh (dom m) = None) as Hfresh.
  { intros V m. apply not_elem_of_dom, is_fresh. }
  unfold ADMG.__init__, nx_DiGraph, nx_Graph, alloc.
  rewrite Hcd. cbn [mbind result_bind Py.bind].
  rewrite add_edge_type_fresh by apply lookup_empty.
  cbn [mbind result_bind Py.bind].
  rewrite to_networkx_graph_alloc, Hcb by (done || apply Hfresh).
  cbn [mbind result_bind Py.bind].
  rewrite add_edge_type_fresh by (simpl; by rewrite lookup_insert_ne).
  cbn [mbind result_bind Py.bind].
  rewrite to_networkx_graph_alloc; [|by apply data_ok_alloc|by apply Hfresh].
  rewrite to_networkx_graph_alloc, Hcu by (done || apply Hfresh).
  cbn [mbind result_bind Py.bind].
  unfold MixedEdgeGraph.add_edge_type. simpl.
  destruct Hclash as [?|[<-|<-]]; [done| |].
  - rewrite lookup_insert_ne by done. by rewrite lookup_insert_eq.
  - by rewrite lookup_insert_eq.
Qed.

Lemma init_name_clash_precedes_check_witness :
  ADMG.__init__ (DataEdges [(1, 2); (2, 1)]) (DataEdges [(1, 3)]) DataNone
    "causal" "confounded" "causal" ∅ ∅ = Raise DuplicateEdgeTypeError.
Proof.
  apply (init_name_clash_precedes_check ∅ (DataEdges [(1, 2); (2, 1)])
           (DataEdges [(1, 3)]) DataNone "causal" "confounded" "causal" ∅);
    [exact I | exact I | exact I | right; left; reflexivity].
Defined.
